(** * GridFS ReadStream

    A model of [lib/mongodb/gridfs/readstream.js]: the pull-based stream that
    reads a GridFS file chunk by chunk.

    The stream is driven by callbacks.  Every closure the file creates is a
    constructor of a small data type here (its captured variables are the
    constructor's arguments) and an [apply_*] function is its body.  The
    calls the stream makes on its collaborators ([push], [emit], [pause],
    [gstore._nthChunk], [gstore.close]) are recorded, in order, in an output
    trace; the two asynchronous ones also queue their callback until the
    environment completes them.  Each handler runs to completion, as on
    JavaScript's single thread.  What [Readable] does with a [push] or an
    [emit] is its own business and not part of the model.

    Numbers are JavaScript doubles in the source; the model uses [Z], exact
    for the integers a length, a chunk size and a chunk number are. *)

From Stdlib Require Import ZArith List String Ascii Bool Lia.
From Stdlib.Strings Require Import Byte.
Import ListNotations.
Local Open Scope Z_scope.

(** ** JavaScript values, as far as the stream inspects them *)

Inductive value : Type :=
| VUndefined
| VNull
| VBool (b : bool)
| VNum (n : Z)
| VStr (s : string)
| VObj (id : nat).

(** [if (v)] *)
Definition truthy (v : value) : bool :=
  match v with
  | VUndefined | VNull => false
  | VBool b => b
  | VNum n => negb (n =? 0)
  | VStr s => negb (String.eqb s EmptyString)
  | VObj _ => true
  end.

(** [v == null] *)
Definition nullish (v : value) : bool :=
  match v with
  | VUndefined | VNull => true
  | _ => false
  end.

(** ** The collaborators *)

Module Chunk.

(** Modelled from the spec: the Chunk class ([chunkNumber], [length()],
    [readSlice(n)]) is not among the sources.  The backing-handle contract
    gives a loaded chunk a zero-based index and a read that returns the
    next [n] bytes and consumes them, so a chunk is its bytes and a read
    cursor.  The chunk sequencer's extraction rule takes the trailing
    [chunkLength - pendingSkipBytes] bytes by [readSlice(length() - seek)],
    and in scenario B that is bytes 5 to 7 of a four-byte chunk with one
    byte skipped: [length()] is the chunk's byte count, and the loaded
    chunk's cursor stands on the handle's position.  A request for more
    bytes than the cursor leaves is answered [null], the value the
    stream's [data != null] test provides for. *)
Record t := mk {
  chunkNumber : Z;
  data : list byte;
  internalPosition : nat
}.

(** Modelled from the spec: the bytes of the loaded chunk not read yet. *)
Definition unread (c : t) : list byte := skipn (internalPosition c) (data c).

(** Modelled from the spec: [length()], the chunk's byte count. *)
Definition length (c : t) : Z := Z.of_nat (List.length (data c)).

(** Modelled from the spec: [readSlice(n)] returns the next [n] bytes from
    the cursor and moves the cursor past them, or returns [null] and moves
    nothing when fewer than [n] bytes are left; the result is paired with
    the chunk as the call leaves it.  (The stream never passes a negative
    [n].) *)
Definition readSlice (n : Z) (c : t) : option (list byte) * t :=
  if (0 <=? n) && (n <=? length c - Z.of_nat (internalPosition c))
  then (Some (firstn (Z.to_nat n) (unread c)),
        mk (chunkNumber c) (data c) (internalPosition c + Z.to_nat n)%nat)
  else (None, c).

End Chunk.

Module GridStore.

(** The members of the GridStore object the stream reads or assigns. *)
Record t := mk {
  length : Z;
  chunkSize : Z;
  currentChunk : Chunk.t;
  position : Z;
  mode : string
}.

Definition set_currentChunk (c : Chunk.t) (g : t) : t :=
  mk (length g) (chunkSize g) c (position g) (mode g).

End GridStore.

(** [gstore.mode[0] == "w"] *)
Definition mode_starts_with_w (m : string) : bool :=
  match m with
  | String c _ => Ascii.eqb c "w"%char
  | EmptyString => false
  end.

(** [Math.ceil(a / b)] on integers, for [b] other than zero.  At [b = 0]
    the source has [Infinity] or [NaN], which no integer stands for: what
    is proved of [numberOfChunks] assumes a chunk size other than zero. *)
Definition ceil_div (a b : Z) : Z := - ((- a) / b).

(** ** The stream object *)

(** [_destroyed] and [_closed] are [null] or [true] in the source. *)
Record ReadStream := mkReadStream {
  autoclose : value;
  gstore : GridStore.t;
  numberOfChunks : Z;
  currentChunkNumber : Z;
  seekStartPosition : Z;
  _destroyed : bool;
  _closed : bool;
  lastRead : Z
}.

(** [function ReadStream(autoclose, gstore)] *)
Definition new_ReadStream (autoclose_arg : value) (gs : GridStore.t) : ReadStream :=
  let n := Chunk.chunkNumber (GridStore.currentChunk gs) in
  {| autoclose := if negb (nullish autoclose_arg) then autoclose_arg else VBool false;
     gstore := gs;
     numberOfChunks := ceil_div (GridStore.length gs) (GridStore.chunkSize gs);
     currentChunkNumber := n;
     seekStartPosition := GridStore.position gs - n * GridStore.chunkSize gs;
     _destroyed := false;
     _closed := false;
     lastRead := -1 |}.

(** ** Closures *)

(** Callbacks handed to [_readChunk]: the one [_read] creates, or a caller's
    own, which the model only records. *)
Inductive ReadChunkCb : Type :=
| K_read
| K_readChunk_caller (id : nat).

(** Callbacks handed to [_advance]: the one [_readChunk] creates around its
    own [callback], or a caller's own. *)
Inductive AdvanceCb : Type :=
| K_readChunk (callback : ReadChunkCb)
| K_advance_caller (id : nat).

(** The callback [_advance] hands to [gstore._nthChunk]. *)
Inductive NthChunkCb : Type :=
| K_advance (callback : AdvanceCb).

(** The callback [_shutdown] hands to [gstore.close]. *)
Inductive CloseCb : Type :=
| K_shutdown.

(** ** What the stream does to the outside, in order *)

Inductive Action : Type :=
| Push (data : list byte)                 (* self.push(data) *)
| PushNull                                (* this.push(null): end of data *)
| EmitError (err : value)                 (* emit('error', err) *)
| EmitClose (doc : value)                 (* emit('close', doc) *)
| Pause                                   (* this.pause() *)
| NthChunk (n : Z)                        (* gstore._nthChunk(n, ...) *)
| GsClose                                 (* gstore.close(...) *)
| CalledAdvance (id : nat) (err : value)  (* a caller's callback(err) *)
| CalledReadChunk (id : nat) (err : value) (data : option (list byte)).

Record World := mkWorld {
  rs : ReadStream;
  out : list Action;
  pendingNthChunk : list NthChunkCb;
  pendingClose : list CloseCb
}.

Definition emit (a : Action) (w : World) : World :=
  mkWorld (rs w) (out w ++ [a]) (pendingNthChunk w) (pendingClose w).

Definition upd (f : ReadStream -> ReadStream) (w : World) : World :=
  mkWorld (f (rs w)) (out w) (pendingNthChunk w) (pendingClose w).

Definition nthChunk (n : Z) (k : NthChunkCb) (w : World) : World :=
  mkWorld (rs w) (out w ++ [NthChunk n]) (pendingNthChunk w ++ [k]) (pendingClose w).

Definition gs_close (k : CloseCb) (w : World) : World :=
  mkWorld (rs w) (out w ++ [GsClose]) (pendingNthChunk w) (pendingClose w ++ [k]).

Definition set_currentChunkNumber (n : Z) (s : ReadStream) : ReadStream :=
  mkReadStream (autoclose s) (gstore s) (numberOfChunks s) n
               (seekStartPosition s) (_destroyed s) (_closed s) (lastRead s).

Definition set_seekStartPosition (n : Z) (s : ReadStream) : ReadStream :=
  mkReadStream (autoclose s) (gstore s) (numberOfChunks s) (currentChunkNumber s)
               n (_destroyed s) (_closed s) (lastRead s).

Definition set_destroyed (s : ReadStream) : ReadStream :=
  mkReadStream (autoclose s) (gstore s) (numberOfChunks s) (currentChunkNumber s)
               (seekStartPosition s) true (_closed s) (lastRead s).

Definition set_closed (s : ReadStream) : ReadStream :=
  mkReadStream (autoclose s) (gstore s) (numberOfChunks s) (currentChunkNumber s)
               (seekStartPosition s) (_destroyed s) true (lastRead s).

Definition set_lastRead (n : Z) (s : ReadStream) : ReadStream :=
  mkReadStream (autoclose s) (gstore s) (numberOfChunks s) (currentChunkNumber s)
               (seekStartPosition s) (_destroyed s) (_closed s) n.

Definition set_currentChunk (c : Chunk.t) (s : ReadStream) : ReadStream :=
  mkReadStream (autoclose s) (GridStore.set_currentChunk c (gstore s))
               (numberOfChunks s) (currentChunkNumber s)
               (seekStartPosition s) (_destroyed s) (_closed s) (lastRead s).

(** ** The methods *)

(** [function(err, doc)] in [_shutdown] *)
Definition apply_close (k : CloseCb) (err doc : value) (w : World) : World :=
  match k with
  | K_shutdown =>
      let w := if truthy err then emit (EmitError err) w else w in
      emit (EmitClose doc) w
  end.

(** [ReadStream.prototype._shutdown] *)
Definition _shutdown (err : value) (w : World) : World :=
  if _closed (rs w) then w
  else
    let w := upd set_closed w in
    let w := if truthy err then emit (EmitError err) w else w in
    let w := emit PushNull w in
    if truthy (autoclose (rs w)) then
      if mode_starts_with_w (GridStore.mode (gstore (rs w)))
      then gs_close K_shutdown w
      else emit (EmitClose VUndefined) w
    else emit (EmitClose VUndefined) w.

(** [ReadStream.prototype.destroy] *)
Definition destroy (err : value) (w : World) : World :=
  if _destroyed (rs w) then w
  else
    let w := upd set_destroyed w in
    let w := emit Pause w in
    _shutdown err w.

(** [function(err, data)] in [_read], or a caller's callback *)
Definition apply_readChunk (k : ReadChunkCb) (err : value)
    (data : option (list byte)) (w : World) : World :=
  match k with
  | K_read =>
      if negb (nullish err) then destroy err w
      else
        let w := match data with
                 | Some d => emit (Push d) w
                 | None => w
                 end in
        if currentChunkNumber (rs w) >=? numberOfChunks (rs w)
        then _shutdown VUndefined w
        else w
  | K_readChunk_caller id => emit (CalledReadChunk id err data) w
  end.

(** [function(err)] in [_readChunk], or a caller's callback *)
Definition apply_advance (k : AdvanceCb) (err : value) (w : World) : World :=
  match k with
  | K_readChunk callback =>
      if truthy err then apply_readChunk callback err None w
      else
        let c := GridStore.currentChunk (gstore (rs w)) in
        let seek := seekStartPosition (rs w) in
        let '(data, c', w) :=
          if (seek >? 0) && (Chunk.length c >? seek)
          then
            let '(d, c') := Chunk.readSlice (Chunk.length c - seek) c in
            (d, c', upd (set_seekStartPosition 0) w)
          else
            let '(d, c') := Chunk.readSlice (Chunk.length c) c in
            (d, c', w) in
        let w := upd (set_currentChunk c') w in
        let w := upd (set_lastRead (currentChunkNumber (rs w))) w in
        apply_readChunk callback VNull data w
  | K_advance_caller id => emit (CalledAdvance id err) w
  end.

(** [function(err, chunk)] in [_advance] *)
Definition apply_nthChunk (k : NthChunkCb) (err : value) (chunk : Chunk.t)
    (w : World) : World :=
  match k with
  | K_advance callback =>
      if truthy err then apply_advance callback err w
      else
        let w := upd (set_currentChunk chunk) w in
        apply_advance callback VNull w
  end.

(** [ReadStream.prototype._advance] *)
Definition _advance (callback : AdvanceCb) (w : World) : World :=
  if _destroyed (rs w) || _closed (rs w) then w
  else if negb (lastRead (rs w) =? currentChunkNumber (rs w))
  then apply_advance callback VNull w
  else
    let w := upd (set_currentChunkNumber (currentChunkNumber (rs w) + 1)) w in
    nthChunk (currentChunkNumber (rs w)) (K_advance callback) w.

(** [ReadStream.prototype._readChunk] *)
Definition _readChunk (callback : ReadChunkCb) (w : World) : World :=
  if _destroyed (rs w) || _closed (rs w) then w
  else _advance (K_readChunk callback) w.

(** [ReadStream.prototype._read] *)
Definition _read (w : World) : World :=
  if _destroyed (rs w) || _closed (rs w) then w
  else if currentChunkNumber (rs w) >? numberOfChunks (rs w) then w
  else _readChunk K_read w.

(** ** Sessions *)

(** What happens to a stream: the consumer pulls, someone calls [destroy],
    the oldest outstanding [_nthChunk] calls back, or [gstore.close] does.
    A completion with nothing outstanding cannot happen and changes nothing. *)
Inductive Event : Type :=
| EvRead
| EvDestroy (err : value)
| EvNthChunkDone (err : value) (chunk : Chunk.t)
| EvCloseDone (err doc : value).

Definition step (w : World) (e : Event) : World :=
  match e with
  | EvRead => _read w
  | EvDestroy err => destroy err w
  | EvNthChunkDone err chunk =>
      match pendingNthChunk w with
      | [] => w
      | k :: ks =>
          apply_nthChunk k err chunk (mkWorld (rs w) (out w) ks (pendingClose w))
      end
  | EvCloseDone err doc =>
      match pendingClose w with
      | [] => w
      | k :: ks =>
          apply_close k err doc (mkWorld (rs w) (out w) (pendingNthChunk w) ks)
      end
  end.

Definition run (w : World) (evs : list Event) : World := fold_left step evs w.

(** A stream just constructed: nothing done, nothing outstanding. *)
Definition start (autoclose_arg : value) (gs : GridStore.t) : World :=
  mkWorld (new_ReadStream autoclose_arg gs) [] [] [].

(** ** Reading a trace *)

Definition is_push (a : Action) : bool :=
  match a with Push _ => true | _ => false end.
Definition is_end (a : Action) : bool :=
  match a with PushNull => true | _ => false end.
Definition is_error (a : Action) : bool :=
  match a with EmitError _ => true | _ => false end.
Definition is_close (a : Action) : bool :=
  match a with EmitClose _ => true | _ => false end.
Definition is_gs_close (a : Action) : bool :=
  match a with GsClose => true | _ => false end.
Definition is_fetch (a : Action) : bool :=
  match a with NthChunk _ => true | _ => false end.
Definition is_called (a : Action) : bool :=
  match a with CalledAdvance _ _ | CalledReadChunk _ _ _ => true | _ => false end.

Definition count (p : Action -> bool) (l : list Action) : nat :=
  List.length (filter p l).

(** Sizes of the data units pushed, in order. *)
Fixpoint unit_sizes (l : list Action) : list nat :=
  match l with
  | [] => []
  | Push d :: l' => List.length d :: unit_sizes l'
  | _ :: l' => unit_sizes l'
  end.

(** The last [n] elements of a list. *)
Definition trailing {A : Type} (n : nat) (l : list A) : list A :=
  skipn (List.length l - n) l.

(** Whether [_shutdown] hands the file to [gstore.close]. *)
Definition releases (s : ReadStream) : bool :=
  truthy (autoclose s) && mode_starts_with_w (GridStore.mode (gstore s)).

(** The error signal a handler emits for [err], if [err] is one. *)
Definition error_signal (err : value) : list Action :=
  if truthy err then [EmitError err] else [].

(** What a first [_shutdown(err)] does to the outside. *)
Definition shutdown_trace (err : value) (s : ReadStream) : list Action :=
  error_signal err ++ [PushNull; if releases s then GsClose else EmitClose VUndefined].

Definition active (w : World) : Prop :=
  _destroyed (rs w) = false /\ _closed (rs w) = false.

(** ** Sample data: a file of ten bytes in chunks of four *)

Definition chunk0 : Chunk.t := Chunk.mk 0 [x00; x01; x02; x03] 0.
Definition chunk1 : Chunk.t := Chunk.mk 1 [x04; x05; x06; x07] 0.
Definition chunk2 : Chunk.t := Chunk.mk 2 [x08; x09] 0.
Definition chunk3 : Chunk.t := Chunk.mk 3 [] 0.

(** Opened for reading at position 0: chunk 0 is loaded. *)
Definition file10 : GridStore.t := GridStore.mk 10 4 chunk0 0 "r".

(** Chunk 1 with its cursor on the file's position 5. *)
Definition chunk1_at1 : Chunk.t := Chunk.mk 1 [x04; x05; x06; x07] 1.

(** Opened at position 5: chunk 1 is loaded, its cursor on the position. *)
Definition file10_at5 : GridStore.t := GridStore.mk 10 4 chunk1_at1 5 "r".

(** The same file under a write-oriented mode. *)
Definition file10_w : GridStore.t := GridStore.mk 10 4 chunk0 0 "w".

(** A handle whose position does not lie in its loaded chunk. *)
Definition file10_bad : GridStore.t := GridStore.mk 10 4 chunk0 9 "r".

Definition an_error : value := VObj 1.
Definition another_error : value := VObj 2.
Definition a_doc : value := VObj 3.

(** ** Invariants *)

(** Before [_shutdown] has run nothing terminal has been signalled and
    nothing is being released; after it, the end of data has been signalled
    once and the close signal has been emitted once or is due when
    [gstore.close] calls back; a callback of [gstore.close] is outstanding
    only if [gstore.close] was called. *)
Definition Inv (w : World) : Prop :=
  if _closed (rs w)
  then count is_end (out w) = 1%nat
       /\ (count is_close (out w) + List.length (pendingClose w) = 1)%nat
       /\ (List.length (pendingClose w) <= count is_gs_close (out w))%nat
  else _destroyed (rs w) = false
       /\ pendingClose w = []
       /\ count is_end (out w) = 0%nat
       /\ count is_close (out w) = 0%nat
       /\ count is_error (out w) = 0%nat.

(** [w'] comes after [w]: the construction-time policy and the chunk count
    are the same, the flags are not reset, the chunk number has not
    decreased, the seek offset is untouched or has been reset to zero, and
    [gstore.close] has not been called unless the policy asks for it. *)
Definition Frame (w w' : World) : Prop :=
  autoclose (rs w') = autoclose (rs w)
  /\ numberOfChunks (rs w') = numberOfChunks (rs w)
  /\ GridStore.mode (gstore (rs w')) = GridStore.mode (gstore (rs w))
  /\ (seekStartPosition (rs w') = seekStartPosition (rs w)
      \/ seekStartPosition (rs w') = 0)
  /\ currentChunkNumber (rs w) <= currentChunkNumber (rs w')
  /\ (_closed (rs w) = true -> _closed (rs w') = true)
  /\ (_destroyed (rs w) = true -> _destroyed (rs w') = true)
  /\ (releases (rs w) = false ->
      count is_gs_close (out w') = count is_gs_close (out w)).

(** Cancelled, with no fetch outstanding. *)
Definition settled (w : World) : Prop :=
  _closed (rs w) = true /\ _destroyed (rs w) = true /\ pendingNthChunk w = [].

(** ** Scenarios *)

(** The chunk after its next [n] bytes have been read. *)
Definition consumed (n : nat) (c : Chunk.t) : Chunk.t :=
  Chunk.mk (Chunk.chunkNumber c) (Chunk.data c) (Chunk.internalPosition c + n).

(** The first three pulls of scenario A, each fetch answered. *)
Definition scenario_A : list Event :=
  [EvRead; EvRead; EvNthChunkDone VNull chunk1; EvRead; EvNthChunkDone VNull chunk2].

(** A pull, a second pull whose fetch is outstanding when [destroy(err)] is
    called, and the fetch then succeeding. *)
Definition scenario_D : list Event :=
  [EvRead; EvRead; EvDestroy an_error; EvNthChunkDone VNull chunk1].

(** ** More ways to read a trace and to drive a session *)

Definition is_pause (a : Action) : bool :=
  match a with Pause => true | _ => false end.

(** The chunk numbers asked of [gstore._nthChunk], in order. *)
Fixpoint fetch_numbers (l : list Action) : list Z :=
  match l with
  | [] => []
  | NthChunk n :: l' => n :: fetch_numbers l'
  | _ :: l' => fetch_numbers l'
  end.

(** The data units pushed, in order. *)
Fixpoint units (l : list Action) : list (list byte) :=
  match l with
  | [] => []
  | Push d :: l' => d :: units l'
  | _ :: l' => units l'
  end.

(** [c + 1; c + 2; ...; c + n] *)
Fixpoint count_up (c : Z) (n : nat) : list Z :=
  match n with
  | O => []
  | S n' => (c + 1) :: count_up (c + 1) n'
  end.

(** Every closed stream has called [gstore.close] once if it releases the
    file and never otherwise, [pause] has been called once if the stream is
    destroyed and never otherwise, and error signals are covered by the one
    [_shutdown] and the callbacks of [gstore.close] that have run. *)
Definition Accounted (w : World) : Prop :=
  count is_gs_close (out w)
  = (if _closed (rs w) && releases (rs w) then 1 else 0)%nat
  /\ count is_pause (out w) = (if _destroyed (rs w) then 1 else 0)%nat
  /\ (count is_error (out w) + List.length (pendingClose w)
      <= (if _closed (rs w) then 1 else 0) + count is_gs_close (out w))%nat.

(** The chunks asked for so far are the ones after chunk [c0], one by one,
    up to the current one. *)
Definition InOrder (c0 : Z) (w : World) : Prop :=
  fetch_numbers (out w) = count_up c0 (List.length (fetch_numbers (out w)))
  /\ currentChunkNumber (rs w)
     = c0 + Z.of_nat (List.length (fetch_numbers (out w))).

(** A handle that answers at once: the fetch outstanding, if any, is
    completed with the chunk of the number last asked for. *)
Definition answer (file : Z -> Chunk.t) (w : World) : World :=
  match pendingNthChunk w with
  | [] => w
  | _ :: _ =>
      step w (EvNthChunkDone VNull (file (last (fetch_numbers (out w)) 0)))
  end.

(** One pull, answered. *)
Definition pull (file : Z -> Chunk.t) (w : World) : World :=
  answer file (step w EvRead).

Fixpoint pulls (file : Z -> Chunk.t) (n : nat) (w : World) : World :=
  match n with
  | O => w
  | S n' => pulls file n' (pull file w)
  end.

(** What [n] answered pulls after chunk [c] do to the outside, while the
    stream goes on. *)
Fixpoint expected (file : Z -> Chunk.t) (c : Z) (n : nat) : list Action :=
  match n with
  | O => []
  | S n' =>
      NthChunk (c + 1) :: Push (Chunk.unread (file (c + 1)))
        :: expected file (c + 1) n'
  end.

(** Between two pulls of a session that goes on: nothing outstanding, the
    loaded chunk read, chunks left, no seek offset pending. *)
Definition steady (w : World) : Prop :=
  active w
  /\ pendingNthChunk w = []
  /\ lastRead (rs w) = currentChunkNumber (rs w)
  /\ seekStartPosition (rs w) <= 0
  /\ currentChunkNumber (rs w) < numberOfChunks (rs w).

Definition is_destroy (e : Event) : bool :=
  match e with EvDestroy _ => true | _ => false end.

(** The ten-byte file served chunk by chunk; past its last chunk the
    handle answers with an empty chunk. *)
Definition file10_chunks (n : Z) : Chunk.t :=
  if n =? 0 then chunk0
  else if n =? 1 then chunk1
  else if n =? 2 then chunk2
  else Chunk.mk n [] 0.

(** A handle whose loaded chunk lies beyond the file. *)
Definition file10_past : GridStore.t :=
  GridStore.mk 10 4 (Chunk.mk 5 [] 0) 20 "r".

(** The world in which a production step hands its unit to the callback:
    chunk [c] as the read has left it, seek offset [seek], and [lastRead]
    on the current chunk number; everything else as in [w]. *)
Definition produced (w : World) (c : Chunk.t) (seek : Z) : World :=
  mkWorld
    (mkReadStream (autoclose (rs w))
       (GridStore.mk (GridStore.length (gstore (rs w)))
          (GridStore.chunkSize (gstore (rs w))) c
          (GridStore.position (gstore (rs w)))
          (GridStore.mode (gstore (rs w))))
       (numberOfChunks (rs w)) (currentChunkNumber (rs w)) seek
       (_destroyed (rs w)) (_closed (rs w)) (currentChunkNumber (rs w)))
    (out w) (pendingNthChunk w) (pendingClose w).

(** The first answer of [gstore.close] among the events, if there is one. *)
Fixpoint first_close (evs : list Event) : option (value * value) :=
  match evs with
  | [] => None
  | EvCloseDone err doc :: _ => Some (err, doc)
  | _ :: evs' => first_close evs'
  end.

(** * Properties *)

Ltac open_world w :=
  let s := fresh "s" in
  destruct w as [s ? ? ?]; destruct s; simpl in *.

Lemma count_app (p : Action -> bool) (l l' : list Action) :
  count p (l ++ l') = (count p l + count p l')%nat.
Proof. unfold count. rewrite filter_app, length_app. reflexivity. Qed.

Lemma shutdown_when_closed (err : value) (w : World) :
  _closed (rs w) = true -> _shutdown err w = w.
Proof. intros H. unfold _shutdown. rewrite H. reflexivity. Qed.

Lemma shutdown_when_open (err : value) (w : World) :
  _closed (rs w) = false ->
  _shutdown err w =
  mkWorld (set_closed (rs w)) (out w ++ shutdown_trace err (rs w))
          (pendingNthChunk w)
          (pendingClose w ++ if releases (rs w) then [K_shutdown] else []).
Proof.
  intros H. unfold _shutdown, shutdown_trace, error_signal, releases.
  rewrite H. open_world w. unfold emit, gs_close, upd.
  destruct (truthy err); simpl;
    destruct (truthy autoclose0),
      (mode_starts_with_w (GridStore.mode gstore0)); simpl;
    rewrite <- ?app_assoc, ?app_nil_r; reflexivity.
Qed.

Lemma destroy_when_destroyed (err : value) (w : World) :
  _destroyed (rs w) = true -> destroy err w = w.
Proof. intros H. unfold destroy. rewrite H. reflexivity. Qed.

Lemma destroy_sets_destroyed (err : value) (w : World) :
  _destroyed (rs (destroy err w)) = true.
Proof.
  unfold destroy. destruct (_destroyed (rs w)) eqn:D; [exact D|].
  destruct (_closed (rs w)) eqn:C.
  - rewrite shutdown_when_closed by exact C. reflexivity.
  - rewrite shutdown_when_open by exact C. reflexivity.
Qed.

Lemma destroy_when_active (err : value) (w : World) :
  active w ->
  destroy err w =
  mkWorld (set_closed (set_destroyed (rs w)))
          (out w ++ Pause :: shutdown_trace err (rs w))
          (pendingNthChunk w)
          (pendingClose w ++ if releases (rs w) then [K_shutdown] else []).
Proof.
  intros [D C]. unfold destroy. rewrite D.
  rewrite shutdown_when_open by exact C.
  open_world w. rewrite <- app_assoc. reflexivity.
Qed.

Ltac count_out :=
  repeat rewrite count_app; unfold count; simpl; try lia.

(** ** What every session maintains *)

Lemma Inv_start (a : value) (gs : GridStore.t) : Inv (start a gs).
Proof. unfold Inv. simpl. repeat split. Qed.

(** A change that touches neither flag, nor the release in progress, nor the
    terminal signals keeps [Inv]. *)
Lemma Inv_quiet (w w' : World) :
  _closed (rs w') = _closed (rs w) ->
  _destroyed (rs w') = _destroyed (rs w) ->
  pendingClose w' = pendingClose w ->
  count is_end (out w') = count is_end (out w) ->
  count is_close (out w') = count is_close (out w) ->
  count is_error (out w') = count is_error (out w) ->
  count is_gs_close (out w') = count is_gs_close (out w) ->
  Inv w -> Inv w'.
Proof.
  unfold Inv. intros -> -> -> -> -> -> ->. exact (fun H => H).
Qed.

Lemma Inv_emit (a : Action) (w : World) :
  is_end a = false -> is_close a = false -> is_error a = false ->
  is_gs_close a = false ->
  Inv w -> Inv (emit a w).
Proof.
  intros He Hc Hr Hg. apply Inv_quiet; try reflexivity; simpl;
    rewrite count_app; unfold count; simpl;
    rewrite ?He, ?Hc, ?Hr, ?Hg; simpl; lia.
Qed.

Lemma Inv_upd (f : ReadStream -> ReadStream) (w : World) :
  _closed (f (rs w)) = _closed (rs w) ->
  _destroyed (f (rs w)) = _destroyed (rs w) ->
  Inv w -> Inv (upd f w).
Proof. intros Hc Hd. apply Inv_quiet; simpl; auto. Qed.

Lemma Inv_shutdown (err : value) (w : World) : Inv w -> Inv (_shutdown err w).
Proof.
  destruct (_closed (rs w)) eqn:C.
  - rewrite shutdown_when_closed by exact C. exact (fun H => H).
  - rewrite shutdown_when_open by exact C.
    unfold Inv. rewrite C. simpl. intros (_ & Hp & He & Hc & _).
    rewrite Hp. unfold shutdown_trace, error_signal.
    destruct (truthy err), (releases (rs w)); simpl;
      repeat rewrite count_app; rewrite He, Hc; unfold count; simpl;
      repeat split; lia.
Qed.

Lemma Inv_destroy (err : value) (w : World) : Inv w -> Inv (destroy err w).
Proof.
  intros H. unfold destroy.
  destruct (_destroyed (rs w)) eqn:D; [exact H|].
  destruct (_closed (rs w)) eqn:C.
  - rewrite shutdown_when_closed by exact C.
    revert H. unfold Inv. simpl. rewrite C. simpl.
    repeat rewrite count_app. unfold count. simpl. lia.
  - fold (destroy err w).
    assert (A : active w) by (split; assumption).
    pose proof (destroy_when_active err w A) as E.
    unfold destroy in E. rewrite D in E. rewrite E. clear E.
    revert H. unfold Inv. rewrite C. simpl. intros (_ & Hp & He & Hc & _).
    rewrite Hp. unfold shutdown_trace, error_signal.
    destruct (truthy err), (releases (rs w)); simpl;
      repeat rewrite count_app; rewrite He, Hc; unfold count; simpl;
      repeat split; lia.
Qed.

Lemma Inv_nthChunk (n : Z) (k : NthChunkCb) (w : World) :
  Inv w -> Inv (nthChunk n k w).
Proof.
  apply Inv_quiet; try reflexivity; simpl;
    rewrite count_app; unfold count; simpl; lia.
Qed.

Ltac inv_code :=
  repeat match goal with
  | |- Inv (if ?c then _ else _) => destruct c
  | |- Inv (match ?d with Some _ => _ | None => _ end) => destruct d
  | |- Inv (_shutdown _ _) => apply Inv_shutdown
  | |- Inv (destroy _ _) => apply Inv_destroy
  | |- Inv (emit _ _) =>
      apply Inv_emit; [reflexivity | reflexivity | reflexivity | reflexivity |]
  | |- Inv (upd _ _) => apply Inv_upd; [reflexivity | reflexivity |]
  | |- Inv (nthChunk _ _ _) => apply Inv_nthChunk
  end.

Lemma Inv_apply_readChunk (k : ReadChunkCb) (err : value)
    (data : option (list byte)) (w : World) :
  Inv w -> Inv (apply_readChunk k err data w).
Proof. intros H. destruct k; unfold apply_readChunk; inv_code; exact H. Qed.

Lemma Inv_apply_advance (k : AdvanceCb) (err : value) (w : World) :
  Inv w -> Inv (apply_advance k err w).
Proof.
  intros H. destruct k as [cb | id]; unfold apply_advance.
  - destruct (truthy err); [apply Inv_apply_readChunk; exact H|].
    destruct (_ && _).
    + destruct (Chunk.readSlice _ _) as [d c'].
      apply Inv_apply_readChunk. inv_code. exact H.
    + destruct (Chunk.readSlice _ _) as [d c'].
      apply Inv_apply_readChunk. inv_code. exact H.
  - inv_code. exact H.
Qed.

Lemma Inv_apply_nthChunk (k : NthChunkCb) (err : value) (chunk : Chunk.t)
    (w : World) :
  Inv w -> Inv (apply_nthChunk k err chunk w).
Proof.
  intros H. destruct k as [cb]. unfold apply_nthChunk.
  destruct (truthy err); apply Inv_apply_advance; inv_code; exact H.
Qed.

Lemma Inv_advance (cb : AdvanceCb) (w : World) : Inv w -> Inv (_advance cb w).
Proof.
  intros H. unfold _advance.
  destruct (_ || _); [exact H|].
  destruct (negb _); [apply Inv_apply_advance; exact H|].
  inv_code. exact H.
Qed.

Lemma Inv_read (w : World) : Inv w -> Inv (_read w).
Proof.
  intros H. unfold _read, _readChunk.
  repeat match goal with |- Inv (if ?c then _ else _) => destruct c end;
    try exact H.
  apply Inv_advance. exact H.
Qed.

Lemma Inv_step (w : World) (e : Event) : Inv w -> Inv (step w e).
Proof.
  intros H. destruct e as [| err | err chunk | err doc]; simpl.
  - apply Inv_read. exact H.
  - apply Inv_destroy. exact H.
  - destruct (pendingNthChunk w) as [| k ks] eqn:P; [exact H|].
    apply Inv_apply_nthChunk.
    revert H. apply Inv_quiet; reflexivity.
  - destruct (pendingClose w) as [| k ks] eqn:P; [exact H|].
    destruct k. revert H. unfold Inv, apply_close.
    destruct (_closed (rs w)) eqn:C.
    + rewrite P. destruct (truthy err); simpl; rewrite C;
        repeat rewrite count_app; unfold count; simpl; lia.
    + rewrite P. intros (_ & Hp & _). discriminate Hp.
Qed.

Lemma Inv_run (evs : list Event) (w : World) : Inv w -> Inv (run w evs).
Proof.
  revert w. induction evs as [| e evs IH]; intros w H; simpl.
  - exact H.
  - apply IH. apply Inv_step. exact H.
Qed.

(** ** What no handler ever undoes *)

Lemma Frame_refl (w : World) : Frame w w.
Proof. unfold Frame. repeat split; auto. lia. Qed.

Lemma releases_Frame (w w' : World) :
  Frame w w' -> releases (rs w') = releases (rs w).
Proof. intros (Ha & _ & Hm & _). unfold releases. rewrite Ha, Hm. reflexivity. Qed.

Lemma Frame_trans (w1 w2 w3 : World) :
  Frame w1 w2 -> Frame w2 w3 -> Frame w1 w3.
Proof.
  intros F12 F23. pose proof (releases_Frame _ _ F12) as R.
  destruct F12 as (A1 & N1 & M1 & S1 & C1 & L1 & D1 & G1).
  destruct F23 as (A2 & N2 & M2 & S2 & C2 & L2 & D2 & G2).
  unfold Frame. repeat split; try congruence; auto.
  - destruct S2 as [S2 | S2]; [rewrite S2; exact S1 | right; exact S2].
  - lia.
  - intros Hr. rewrite G2 by congruence. apply G1. exact Hr.
Qed.

Ltac frame_prim :=
  unfold Frame, emit, upd, nthChunk; simpl;
  repeat split; auto; try lia; intros;
  rewrite ?count_app; unfold count; simpl; try lia.

Lemma Frame_emit (a : Action) (w : World) :
  is_gs_close a = false -> Frame w (emit a w).
Proof. intros H. frame_prim. rewrite H. simpl. lia. Qed.

Lemma Frame_nthChunk (n : Z) (k : NthChunkCb) (w : World) :
  Frame w (nthChunk n k w).
Proof. frame_prim. Qed.

Lemma Frame_advance_number (w : World) :
  Frame w (upd (set_currentChunkNumber (currentChunkNumber (rs w) + 1)) w).
Proof. frame_prim. Qed.

Lemma Frame_set_seek (w : World) : Frame w (upd (set_seekStartPosition 0) w).
Proof. frame_prim. Qed.

Lemma Frame_set_lastRead (n : Z) (w : World) : Frame w (upd (set_lastRead n) w).
Proof. frame_prim. Qed.

Lemma Frame_set_currentChunk (c : Chunk.t) (w : World) :
  Frame w (upd (set_currentChunk c) w).
Proof. frame_prim. Qed.

Lemma Frame_pending (w : World) (pn : list NthChunkCb) (pc : list CloseCb) :
  Frame w (mkWorld (rs w) (out w) pn pc).
Proof. frame_prim. Qed.

Lemma Frame_shutdown (err : value) (w : World) : Frame w (_shutdown err w).
Proof.
  destruct (_closed (rs w)) eqn:C.
  - rewrite shutdown_when_closed by exact C. apply Frame_refl.
  - rewrite shutdown_when_open by exact C.
    unfold Frame, shutdown_trace, error_signal. simpl.
    repeat split; auto; try lia. intros R. rewrite R.
    destruct (truthy err); count_out.
Qed.

Lemma Frame_destroy (err : value) (w : World) : Frame w (destroy err w).
Proof.
  unfold destroy. destruct (_destroyed (rs w)); [apply Frame_refl|].
  eapply Frame_trans; [| apply Frame_shutdown].
  eapply Frame_trans; [| apply Frame_emit; reflexivity].
  frame_prim.
Qed.

Lemma Frame_apply_close (k : CloseCb) (err doc : value) (w : World) :
  Frame w (apply_close k err doc w).
Proof.
  destruct k. unfold apply_close.
  eapply Frame_trans; [| apply Frame_emit; reflexivity].
  destruct (truthy err); [apply Frame_emit; reflexivity | apply Frame_refl].
Qed.

Lemma Frame_apply_readChunk (k : ReadChunkCb) (err : value)
    (data : option (list byte)) (w : World) :
  Frame w (apply_readChunk k err data w).
Proof.
  destruct k; unfold apply_readChunk.
  - destruct (negb (nullish err)); [apply Frame_destroy|].
    assert (F : Frame w match data with
                        | Some d => emit (Push d) w
                        | None => w
                        end).
    { destruct data; [apply Frame_emit; reflexivity | apply Frame_refl]. }
    destruct (_ >=? _); [| exact F].
    eapply Frame_trans; [exact F | apply Frame_shutdown].
  - apply Frame_emit. reflexivity.
Qed.

Lemma Frame_apply_advance (k : AdvanceCb) (err : value) (w : World) :
  Frame w (apply_advance k err w).
Proof.
  destruct k as [cb | id]; unfold apply_advance.
  - destruct (truthy err); [apply Frame_apply_readChunk|].
    destruct (_ && _); destruct (Chunk.readSlice _ _) as [d c'];
      (eapply Frame_trans; [| apply Frame_apply_readChunk]);
      (eapply Frame_trans; [| apply Frame_set_lastRead]);
      (eapply Frame_trans; [| apply Frame_set_currentChunk]).
    + apply Frame_set_seek.
    + apply Frame_refl.
  - apply Frame_emit. reflexivity.
Qed.

Lemma Frame_apply_nthChunk (k : NthChunkCb) (err : value) (chunk : Chunk.t)
    (w : World) :
  Frame w (apply_nthChunk k err chunk w).
Proof.
  destruct k as [cb]. unfold apply_nthChunk.
  destruct (truthy err); [apply Frame_apply_advance|].
  eapply Frame_trans; [apply Frame_set_currentChunk | apply Frame_apply_advance].
Qed.

Lemma Frame_advance (cb : AdvanceCb) (w : World) : Frame w (_advance cb w).
Proof.
  unfold _advance. destruct (_ || _); [apply Frame_refl|].
  destruct (negb _); [apply Frame_apply_advance|].
  eapply Frame_trans; [apply Frame_advance_number | apply Frame_nthChunk].
Qed.

Lemma Frame_read (w : World) : Frame w (_read w).
Proof.
  unfold _read, _readChunk.
  repeat match goal with |- Frame _ (if ?c then _ else _) => destruct c end;
    try apply Frame_refl.
  apply Frame_advance.
Qed.

Lemma Frame_step (w : World) (e : Event) : Frame w (step w e).
Proof.
  destruct e as [| err | err chunk | err doc]; simpl.
  - apply Frame_read.
  - apply Frame_destroy.
  - destruct (pendingNthChunk w) as [| k ks]; [apply Frame_refl|].
    eapply Frame_trans; [| apply Frame_apply_nthChunk]. apply Frame_pending.
  - destruct (pendingClose w) as [| k ks]; [apply Frame_refl|].
    eapply Frame_trans; [| apply Frame_apply_close]. apply Frame_pending.
Qed.

Lemma Frame_run (evs : list Event) (w : World) : Frame w (run w evs).
Proof.
  revert w. induction evs as [| e evs IH]; intros w; simpl.
  - apply Frame_refl.
  - eapply Frame_trans; [apply Frame_step | apply IH].
Qed.

(** ** After a cancellation with no fetch outstanding *)

(** Only the callback of [gstore.close] still does anything. *)
Lemma settled_step (w : World) (e : Event) :
  settled w ->
  settled (step w e)
  /\ count is_push (out (step w e)) = count is_push (out w)
  /\ count is_fetch (out (step w e)) = count is_fetch (out w)
  /\ (count is_error (out w) <= count is_error (out (step w e)))%nat
  /\ (count is_error (out (step w e)) + List.length (pendingClose (step w e))
      <= count is_error (out w) + List.length (pendingClose w))%nat.
Proof.
  intros (C & D & P).
  assert (Same : forall w', w' = w ->
    settled w'
    /\ count is_push (out w') = count is_push (out w)
    /\ count is_fetch (out w') = count is_fetch (out w)
    /\ (count is_error (out w) <= count is_error (out w'))%nat
    /\ (count is_error (out w') + List.length (pendingClose w')
        <= count is_error (out w) + List.length (pendingClose w))%nat).
  { intros w' ->. unfold settled. repeat split; auto. }
  destruct e as [| err | err chunk | err doc]; simpl.
  - apply Same. unfold _read. rewrite D. reflexivity.
  - apply Same. apply destroy_when_destroyed. exact D.
  - apply Same. rewrite P. reflexivity.
  - destruct (pendingClose w) as [| k ks] eqn:Q; [apply Same; reflexivity|].
    destruct k. unfold settled, apply_close.
    destruct (truthy err); simpl; repeat rewrite count_app;
      unfold count; simpl; repeat split; auto; lia.
Qed.

Lemma settled_run (evs : list Event) (w : World) :
  settled w ->
  settled (run w evs)
  /\ count is_push (out (run w evs)) = count is_push (out w)
  /\ count is_fetch (out (run w evs)) = count is_fetch (out w)
  /\ (count is_error (out w) <= count is_error (out (run w evs)))%nat
  /\ (count is_error (out (run w evs)) + List.length (pendingClose (run w evs))
      <= count is_error (out w) + List.length (pendingClose w))%nat.
Proof.
  revert w. induction evs as [| e evs IH]; intros w S; simpl.
  - repeat split; try apply S; lia.
  - destruct (settled_step w e S) as (S1 & P1 & F1 & L1 & U1).
    destruct (IH _ S1) as (S2 & P2 & F2 & L2 & U2).
    repeat split; try apply S2; lia.
Qed.

Lemma truthy_not_nullish (v : value) : truthy v = true -> nullish v = false.
Proof. destruct v; simpl; intros H; try reflexivity; discriminate H. Qed.

Lemma unread_at_start (c : Chunk.t) :
  Chunk.internalPosition c = 0%nat -> Chunk.unread c = Chunk.data c.
Proof. unfold Chunk.unread. intros ->. reflexivity. Qed.

Lemma readSlice_within (n : Z) (c : Chunk.t) :
  0 <= n <= Chunk.length c - Z.of_nat (Chunk.internalPosition c) ->
  Chunk.readSlice n c
  = (Some (firstn (Z.to_nat n) (Chunk.unread c)), consumed (Z.to_nat n) c).
Proof.
  intros [H0 H1]. unfold Chunk.readSlice, consumed.
  apply Z.leb_le in H0, H1. rewrite H0, H1. reflexivity.
Qed.

Lemma readSlice_all (c : Chunk.t) :
  Chunk.internalPosition c = 0%nat ->
  Chunk.readSlice (Chunk.length c) c
  = (Some (Chunk.unread c), consumed (List.length (Chunk.unread c)) c).
Proof.
  intros P. rewrite readSlice_within by (rewrite P; unfold Chunk.length; lia).
  rewrite (unread_at_start c P). unfold Chunk.length.
  rewrite Nat2Z.id, firstn_all. reflexivity.
Qed.

Lemma readSlice_beyond (n : Z) (c : Chunk.t) :
  Chunk.length c - Z.of_nat (Chunk.internalPosition c) < n ->
  Chunk.readSlice n c = (None, c).
Proof.
  intros H. unfold Chunk.readSlice.
  replace (n <=? _) with false by (symmetry; apply Z.leb_gt; exact H).
  rewrite andb_false_r. reflexivity.
Qed.

(** With the cursor on the seek offset, the trailing bytes are the unread
    ones. *)
Lemma trailing_unread (c : Chunk.t) (seek : Z) :
  Z.of_nat (Chunk.internalPosition c) = seek ->
  seek <= Chunk.length c ->
  trailing (Z.to_nat (Chunk.length c - seek)) (Chunk.data c) = Chunk.unread c
  /\ firstn (Z.to_nat (Chunk.length c - seek)) (Chunk.unread c)
     = Chunk.unread c.
Proof.
  intros P L. unfold trailing, Chunk.unread, Chunk.length in *. split.
  - f_equal. lia.
  - apply firstn_all2. rewrite length_skipn. lia.
Qed.

Lemma advance_not_needed (callback : AdvanceCb) (w : World) :
  active w ->
  lastRead (rs w) <> currentChunkNumber (rs w) ->
  _advance callback w = apply_advance callback VNull w.
Proof.
  intros [D C] Hne. unfold _advance. rewrite D, C. simpl.
  apply Z.eqb_neq in Hne. rewrite Hne. reflexivity.
Qed.

Lemma advance_fetches (callback : AdvanceCb) (w : World) :
  active w ->
  lastRead (rs w) = currentChunkNumber (rs w) ->
  _advance callback w
  = mkWorld (set_currentChunkNumber (currentChunkNumber (rs w) + 1) (rs w))
            (out w ++ [NthChunk (currentChunkNumber (rs w) + 1)])
            (pendingNthChunk w ++ [K_advance callback])
            (pendingClose w).
Proof.
  intros [D C] Heq. unfold _advance. rewrite D, C. simpl.
  apply Z.eqb_eq in Heq. rewrite Heq. reflexivity.
Qed.

(** The production step of [_readChunk] when the seek offset applies and
    the cursor has not passed it. *)
Lemma produce_with_seek (cb : ReadChunkCb) (err : value) (w : World) :
  truthy err = false ->
  0 < seekStartPosition (rs w)
    < Chunk.length (GridStore.currentChunk (gstore (rs w))) ->
  Z.of_nat (Chunk.internalPosition (GridStore.currentChunk (gstore (rs w))))
    <= seekStartPosition (rs w) ->
  apply_advance (K_readChunk cb) err w
  = apply_readChunk cb VNull
      (Some (firstn
               (Z.to_nat (Chunk.length (GridStore.currentChunk (gstore (rs w)))
                          - seekStartPosition (rs w)))
               (Chunk.unread (GridStore.currentChunk (gstore (rs w))))))
      (upd (set_lastRead (currentChunkNumber (rs w)))
         (upd (set_currentChunk
                 (consumed
                    (Z.to_nat
                       (Chunk.length (GridStore.currentChunk (gstore (rs w)))
                        - seekStartPosition (rs w)))
                    (GridStore.currentChunk (gstore (rs w)))))
            (upd (set_seekStartPosition 0) w))).
Proof.
  intros Hf [H0 H1] Hp. unfold apply_advance. rewrite Hf.
  replace (seekStartPosition (rs w) >? 0) with true
    by (symmetry; apply Z.gtb_lt; lia).
  replace (Chunk.length _ >? seekStartPosition (rs w)) with true
    by (symmetry; apply Z.gtb_lt; lia).
  simpl. rewrite readSlice_within by lia. reflexivity.
Qed.

(** The production step of [_readChunk] in every other case, the cursor at
    the start of the chunk. *)
Lemma produce_whole (cb : ReadChunkCb) (err : value) (w : World) :
  truthy err = false ->
  seekStartPosition (rs w) <= 0
  \/ Chunk.length (GridStore.currentChunk (gstore (rs w)))
     <= seekStartPosition (rs w) ->
  Chunk.internalPosition (GridStore.currentChunk (gstore (rs w))) = 0%nat ->
  apply_advance (K_readChunk cb) err w
  = apply_readChunk cb VNull
      (Some (Chunk.unread (GridStore.currentChunk (gstore (rs w)))))
      (upd (set_lastRead (currentChunkNumber (rs w)))
         (upd (set_currentChunk
                 (consumed
                    (List.length
                       (Chunk.unread (GridStore.currentChunk (gstore (rs w)))))
                    (GridStore.currentChunk (gstore (rs w)))))
            w)).
Proof.
  intros Hf Hr Hp. unfold apply_advance. rewrite Hf.
  replace ((seekStartPosition (rs w) >? 0)
           && (Chunk.length (GridStore.currentChunk (gstore (rs w)))
               >? seekStartPosition (rs w))) with false.
  - rewrite readSlice_all by exact Hp. reflexivity.
  - symmetry. apply andb_false_iff. rewrite !Z.gtb_ltb, !Z.ltb_ge. lia.
Qed.

(** The same with the cursor elsewhere: [readSlice] answers [null]. *)
Lemma produce_nothing (cb : ReadChunkCb) (err : value) (w : World) :
  truthy err = false ->
  seekStartPosition (rs w) <= 0
  \/ Chunk.length (GridStore.currentChunk (gstore (rs w)))
     <= seekStartPosition (rs w) ->
  Chunk.internalPosition (GridStore.currentChunk (gstore (rs w))) <> 0%nat ->
  apply_advance (K_readChunk cb) err w
  = apply_readChunk cb VNull None
      (upd (set_lastRead (currentChunkNumber (rs w)))
         (upd (set_currentChunk (GridStore.currentChunk (gstore (rs w)))) w)).
Proof.
  intros Hf Hr Hp. unfold apply_advance. rewrite Hf.
  replace ((seekStartPosition (rs w) >? 0)
           && (Chunk.length (GridStore.currentChunk (gstore (rs w)))
               >? seekStartPosition (rs w))) with false.
  - rewrite readSlice_beyond by lia. reflexivity.
  - symmetry. apply andb_false_iff. rewrite !Z.gtb_ltb, !Z.ltb_ge. lia.
Qed.

Lemma seek_stays_zero (evs : list Event) (w : World) :
  seekStartPosition (rs w) = 0 -> seekStartPosition (rs (run w evs)) = 0.
Proof.
  intros H0. destruct (Frame_run evs w) as (_ & _ & _ & [S | S] & _).
  - rewrite S. exact H0.
  - exact S.
Qed.

Lemma destroy_closes (err : value) (w : World) :
  Inv w -> _closed (rs (destroy err w)) = true.
Proof.
  intros I. unfold destroy. destruct (_destroyed (rs w)) eqn:D.
  - unfold Inv in I. destruct (_closed (rs w)); [reflexivity|].
    destruct I as (D' & _). congruence.
  - destruct (_closed (rs w)) eqn:C.
    + rewrite shutdown_when_closed by exact C. exact C.
    + rewrite shutdown_when_open by exact C. reflexivity.
Qed.

Lemma destroy_twice (e1 e2 : value) (w : World) :
  destroy e2 (destroy e1 w) = destroy e1 w.
Proof. apply destroy_when_destroyed. apply destroy_sets_destroyed. Qed.

(** Once closed, a session has one close signal, emitted or due; when
    nothing is released it has been emitted. *)
Lemma one_close_signal (a : value) (gs : GridStore.t) (evs : list Event) :
  _closed (rs (run (start a gs) evs)) = true ->
  (count is_close (out (run (start a gs) evs))
   + List.length (pendingClose (run (start a gs) evs)) = 1)%nat
  /\ count is_end (out (run (start a gs) evs)) = 1%nat
  /\ (releases (rs (start a gs)) = false ->
      count is_close (out (run (start a gs) evs)) = 1%nat).
Proof.
  intros C. pose proof (Inv_run evs _ (Inv_start a gs)) as I.
  unfold Inv in I. rewrite C in I. destruct I as (He & Hc & Hg).
  repeat split; try assumption.
  intros R.
  destruct (Frame_run evs (start a gs)) as (_ & _ & _ & _ & _ & _ & _ & G).
  rewrite (G R) in Hg. simpl in Hg. unfold count in Hg. simpl in Hg. lia.
Qed.

Lemma run_app (w : World) (evs evs' : list Event) :
  run w (evs ++ evs') = run (run w evs) evs'.
Proof. apply fold_left_app. Qed.

Lemma fetch_numbers_app (l l' : list Action) :
  fetch_numbers (l ++ l') = fetch_numbers l ++ fetch_numbers l'.
Proof.
  induction l as [| a l IH]; simpl; [reflexivity|].
  destruct a; simpl; rewrite IH; reflexivity.
Qed.

Lemma units_app (l l' : list Action) : units (l ++ l') = units l ++ units l'.
Proof.
  induction l as [| a l IH]; simpl; [reflexivity|].
  destruct a; simpl; rewrite IH; reflexivity.
Qed.

(** A cancelled stream with nothing outstanding does nothing any more. *)
Lemma settled_run_idle (evs : list Event) (w : World) :
  settled w -> pendingClose w = [] -> run w evs = w.
Proof.
  intros (C & D & P) Q. induction evs as [| e evs IH]; [reflexivity|].
  simpl. replace (step w e) with w; [exact IH|].
  destruct e as [| err | err chunk | err doc]; simpl.
  - unfold _read. rewrite D. reflexivity.
  - symmetry. apply destroy_when_destroyed. exact D.
  - rewrite P. reflexivity.
  - rewrite Q. reflexivity.
Qed.

(** With the callback of [gstore.close] outstanding, only the first answer
    of [gstore.close] does something. *)
Lemma settled_run_release (evs : list Event) (w : World) :
  settled w ->
  pendingClose w = [K_shutdown] ->
  out (run w evs)
  = out w ++ match first_close evs with
             | Some (cerr, doc) => error_signal cerr ++ [EmitClose doc]
             | None => []
             end.
Proof.
  intros (C & D & P) Q. induction evs as [| e evs IH].
  - simpl. rewrite app_nil_r. reflexivity.
  - destruct e as [| err | err chunk | err doc].
    + simpl. replace (_read w) with w by (unfold _read; rewrite D; reflexivity).
      exact IH.
    + simpl. rewrite destroy_when_destroyed by exact D. exact IH.
    + simpl. rewrite P. exact IH.
    + simpl. rewrite Q. rewrite settled_run_idle.
      * unfold apply_close, error_signal.
        destruct (truthy err); simpl; rewrite <- ?app_assoc; reflexivity.
      * unfold apply_close. destruct (truthy err); repeat split; assumption.
      * unfold apply_close. destruct (truthy err); reflexivity.
Qed.

(** * The claims *)

(** C1.  [_advance] on a stream that is neither closed nor destroyed.  When
    [lastRead] differs from [currentChunkNumber] it fetches nothing and calls
    back with [null] on the unchanged stream.  Otherwise it adds one to
    [currentChunkNumber], changes nothing else, and issues one [_nthChunk]
    for the new number, its callback outstanding.  When that fetch succeeds
    the fetched chunk becomes [gstore.currentChunk], nothing else changes,
    and the callback gets [null]; when it fails the callback gets the
    error on the stream as it is, the chunk number still advanced and the
    loaded chunk still loaded.  With a caller's own callback all of this
    shows in the trace and in the stream's fields. *)
Theorem advance_on_active_stream :
  forall (callback : AdvanceCb) (w : World),
    _destroyed (rs w) = false ->
    _closed (rs w) = false ->
    (lastRead (rs w) <> currentChunkNumber (rs w) ->
       _advance callback w = apply_advance callback VNull w)
    /\ (lastRead (rs w) = currentChunkNumber (rs w) ->
       _advance callback w
       = mkWorld
           (mkReadStream (autoclose (rs w)) (gstore (rs w))
              (numberOfChunks (rs w)) (currentChunkNumber (rs w) + 1)
              (seekStartPosition (rs w)) (_destroyed (rs w)) (_closed (rs w))
              (lastRead (rs w)))
           (out w ++ [NthChunk (currentChunkNumber (rs w) + 1)])
           (pendingNthChunk w ++ [K_advance callback])
           (pendingClose w))
    /\ (forall (err : value) (chunk : Chunk.t) (w' : World),
          truthy err = false ->
          apply_nthChunk (K_advance callback) err chunk w'
          = apply_advance callback VNull
              (mkWorld
                 (mkReadStream (autoclose (rs w'))
                    (GridStore.mk (GridStore.length (gstore (rs w')))
                       (GridStore.chunkSize (gstore (rs w'))) chunk
                       (GridStore.position (gstore (rs w')))
                       (GridStore.mode (gstore (rs w'))))
                    (numberOfChunks (rs w')) (currentChunkNumber (rs w'))
                    (seekStartPosition (rs w')) (_destroyed (rs w'))
                    (_closed (rs w')) (lastRead (rs w')))
                 (out w') (pendingNthChunk w') (pendingClose w')))
    /\ (forall (err : value) (chunk : Chunk.t) (w' : World),
          truthy err = true ->
          apply_nthChunk (K_advance callback) err chunk w'
          = apply_advance callback err w')
    /\ (forall id : nat,
          lastRead (rs w) <> currentChunkNumber (rs w) ->
          rs (_advance (K_advance_caller id) w) = rs w
          /\ out (_advance (K_advance_caller id) w)
             = out w ++ [CalledAdvance id VNull]
          /\ pendingNthChunk (_advance (K_advance_caller id) w)
             = pendingNthChunk w)
    /\ (forall (id : nat) (err : value) (chunk : Chunk.t) (w' : World),
          truthy err = false ->
          GridStore.currentChunk
            (gstore (rs (apply_nthChunk (K_advance (K_advance_caller id))
                           err chunk w'))) = chunk
          /\ currentChunkNumber
               (rs (apply_nthChunk (K_advance (K_advance_caller id))
                      err chunk w')) = currentChunkNumber (rs w')
          /\ lastRead
               (rs (apply_nthChunk (K_advance (K_advance_caller id))
                      err chunk w')) = lastRead (rs w')
          /\ out (apply_nthChunk (K_advance (K_advance_caller id)) err chunk w')
             = out w' ++ [CalledAdvance id VNull])
    /\ (forall (id : nat) (err : value) (chunk : Chunk.t) (w' : World),
          truthy err = true ->
          rs (apply_nthChunk (K_advance (K_advance_caller id)) err chunk w')
          = rs w'
          /\ out (apply_nthChunk (K_advance (K_advance_caller id)) err chunk w')
             = out w' ++ [CalledAdvance id err]).
Proof.
  intros callback w D C.
  assert (A : active w) by (split; assumption).
  split; [apply advance_not_needed; exact A|].
  split; [apply advance_fetches; exact A|].
  split; [intros err chunk w' Hf; simpl; rewrite Hf; reflexivity|].
  split; [intros err chunk w' Ht; simpl; rewrite Ht; reflexivity|].
  split; [intros id Hne; rewrite advance_not_needed by assumption;
          repeat split|].
  split; intros id err chunk w' H; simpl; rewrite H; repeat split.
Qed.

Lemma advance_on_active_stream_witness :
  currentChunkNumber
    (rs (_advance (K_advance_caller 0) (run (start VNull file10) [EvRead]))) = 1
  /\ out (_advance (K_advance_caller 0) (run (start VNull file10) [EvRead]))
     = [Push [x00; x01; x02; x03]; NthChunk 1]
  /\ pendingNthChunk
       (_advance (K_advance_caller 0) (run (start VNull file10) [EvRead]))
     = [K_advance (K_advance_caller 0)]
  /\ GridStore.currentChunk
       (gstore (rs (apply_nthChunk (K_advance (K_advance_caller 0)) VNull chunk1
                      (_advance (K_advance_caller 0)
                         (run (start VNull file10) [EvRead]))))) = chunk1
  /\ rs (apply_nthChunk (K_advance (K_advance_caller 0)) an_error chunk1
           (_advance (K_advance_caller 0) (run (start VNull file10) [EvRead])))
     = rs (_advance (K_advance_caller 0) (run (start VNull file10) [EvRead])).
Proof.
  destruct (advance_on_active_stream (K_advance_caller 0)
              (run (start VNull file10) [EvRead]))
    as (_ & Hfetch & _ & _ & _ & Hok & Hfail); [reflexivity | reflexivity |].
  rewrite (Hfetch eq_refl).
  split; [reflexivity|]. split; [reflexivity|]. split; [reflexivity|].
  split.
  - apply (Hok 0%nat VNull chunk1). reflexivity.
  - apply (Hfail 0%nat an_error chunk1). reflexivity.
Defined.

(** With a caller's own callback the four cases of C1 read off the trace. *)
Lemma advance_seen_by_a_caller (id : nat) (w : World) :
  active w ->
  (lastRead (rs w) <> currentChunkNumber (rs w) ->
     _advance (K_advance_caller id) w = emit (CalledAdvance id VNull) w)
  /\ (lastRead (rs w) = currentChunkNumber (rs w) ->
      count is_called (out (_advance (K_advance_caller id) w))
      = count is_called (out w)
      /\ count is_fetch (out (_advance (K_advance_caller id) w))
         = S (count is_fetch (out w))).
Proof.
  intros A. split.
  - intros Hne. rewrite advance_not_needed by assumption. reflexivity.
  - intros Heq. rewrite advance_fetches by assumption. simpl. split; count_out.
Qed.

(** C2.  The production step is the callback [_readChunk] gives to
    [_advance], called with [null]; the handle keeps the loaded chunk's
    cursor on the seek offset.  When the offset is positive and below the
    chunk's length, the unit is the trailing [length() - seekStartPosition]
    bytes of the chunk, which are its unread bytes, and the offset is then
    zero and stays zero whatever happens next.  In every other case the
    unit is all the unread bytes of the chunk; where the cursor stands
    past them there are none and [readSlice] hands on [null].  In each
    case [lastRead] is the current chunk number when the callback gets the
    unit, and nothing else of the stream has changed. *)
Theorem production_step :
  forall (cb : ReadChunkCb) (w : World),
    (0 < seekStartPosition (rs w)
       < Chunk.length (GridStore.currentChunk (gstore (rs w))) ->
     Z.of_nat (Chunk.internalPosition (GridStore.currentChunk (gstore (rs w))))
     = seekStartPosition (rs w) ->
     apply_advance (K_readChunk cb) VNull w
     = apply_readChunk cb VNull
         (Some (trailing
                  (Z.to_nat (Chunk.length (GridStore.currentChunk (gstore (rs w)))
                             - seekStartPosition (rs w)))
                  (Chunk.data (GridStore.currentChunk (gstore (rs w))))))
         (produced w
            (consumed
               (Z.to_nat (Chunk.length (GridStore.currentChunk (gstore (rs w)))
                          - seekStartPosition (rs w)))
               (GridStore.currentChunk (gstore (rs w))))
            0)
     /\ trailing
          (Z.to_nat (Chunk.length (GridStore.currentChunk (gstore (rs w)))
                     - seekStartPosition (rs w)))
          (Chunk.data (GridStore.currentChunk (gstore (rs w))))
        = Chunk.unread (GridStore.currentChunk (gstore (rs w)))
     /\ forall evs : list Event,
          seekStartPosition
            (rs (run (apply_advance (K_readChunk cb) VNull w) evs)) = 0)
    /\ (seekStartPosition (rs w) <= 0
        \/ Chunk.length (GridStore.currentChunk (gstore (rs w)))
           <= seekStartPosition (rs w) ->
        Chunk.internalPosition (GridStore.currentChunk (gstore (rs w))) = 0%nat ->
        apply_advance (K_readChunk cb) VNull w
        = apply_readChunk cb VNull
            (Some (Chunk.unread (GridStore.currentChunk (gstore (rs w)))))
            (produced w
               (consumed
                  (List.length
                     (Chunk.unread (GridStore.currentChunk (gstore (rs w)))))
                  (GridStore.currentChunk (gstore (rs w))))
               (seekStartPosition (rs w))))
    /\ (0 < seekStartPosition (rs w) ->
        Chunk.length (GridStore.currentChunk (gstore (rs w)))
          <= seekStartPosition (rs w) ->
        Z.of_nat (Chunk.internalPosition (GridStore.currentChunk (gstore (rs w))))
        = seekStartPosition (rs w) ->
        Chunk.unread (GridStore.currentChunk (gstore (rs w))) = []
        /\ apply_advance (K_readChunk cb) VNull w
           = apply_readChunk cb VNull None
               (produced w (GridStore.currentChunk (gstore (rs w)))
                  (seekStartPosition (rs w)))).
Proof.
  intros cb w. split; [| split].
  - intros Hs Hp.
    destruct (trailing_unread _ _ Hp ltac:(lia)) as [Ht Hf].
    assert (E : apply_advance (K_readChunk cb) VNull w
                = apply_readChunk cb VNull
                    (Some (Chunk.unread (GridStore.currentChunk (gstore (rs w)))))
                    (produced w
                       (consumed
                          (Z.to_nat
                             (Chunk.length
                                (GridStore.currentChunk (gstore (rs w)))
                              - seekStartPosition (rs w)))
                          (GridStore.currentChunk (gstore (rs w))))
                       0)).
    { rewrite (produce_with_seek cb VNull w eq_refl Hs) by lia.
      rewrite Hf. reflexivity. }
    rewrite Ht. split; [exact E|]. split; [reflexivity|].
    intros evs. apply seek_stays_zero. rewrite E.
    match goal with
    | |- seekStartPosition (rs (apply_readChunk _ _ ?d ?w0)) = 0 =>
        destruct (Frame_apply_readChunk cb VNull d w0)
          as (_ & _ & _ & [S | S] & _)
    end.
    + rewrite S. reflexivity.
    + exact S.
  - intros Hs Hp. apply (produce_whole cb VNull w eq_refl Hs Hp).
  - intros H0 Hs Hp. split.
    + unfold Chunk.unread, Chunk.length in *. apply skipn_all2. lia.
    + apply (produce_nothing cb VNull w eq_refl); [right; exact Hs | lia].
Qed.

Lemma production_step_witness :
  apply_advance (K_readChunk (K_readChunk_caller 0)) VNull
    (start VNull file10_at5)
  = mkWorld
      (mkReadStream (VBool false)
         (GridStore.mk 10 4 (Chunk.mk 1 [x04; x05; x06; x07] 4) 5 "r")
         3 1 0 false false 1)
      [CalledReadChunk 0 VNull (Some [x05; x06; x07])] [] [].
Proof.
  destruct (production_step (K_readChunk_caller 0) (start VNull file10_at5))
    as [H _].
  destruct H as [E _]; [vm_compute; split; reflexivity | reflexivity |].
  rewrite E. reflexivity.
Defined.

(** C3 fails on the code.  With length 10 and chunk size 4 the stream counts
    three chunks and pushes units of 4, 4 and 2 bytes, but the third leaves
    [currentChunkNumber] at 2, below [numberOfChunks]: nothing ends.  The
    next pull asks for chunk 3, which the file does not have, and only the
    answer to that ends the session: after a fourth unit when the fetch
    succeeds, after an error signal when it fails.  [gstore.close] is never
    called. *)
Theorem scenario_A_runs_past_the_last_chunk :
  numberOfChunks (rs (start (VBool false) file10)) = 3
  /\ out (run (start (VBool false) file10) scenario_A)
     = [Push [x00; x01; x02; x03]; NthChunk 1; Push [x04; x05; x06; x07];
        NthChunk 2; Push [x08; x09]]
  /\ _closed (rs (run (start (VBool false) file10) scenario_A)) = false
  /\ currentChunkNumber (rs (run (start (VBool false) file10) scenario_A)) = 2
  /\ out (run (start (VBool false) file10) (scenario_A ++ [EvRead]))
     = out (run (start (VBool false) file10) scenario_A) ++ [NthChunk 3]
  /\ out (run (start (VBool false) file10)
            (scenario_A ++ [EvRead; EvNthChunkDone VNull chunk3]))
     = out (run (start (VBool false) file10) scenario_A)
       ++ [NthChunk 3; Push []; PushNull; EmitClose VUndefined]
  /\ out (run (start (VBool false) file10)
            (scenario_A ++ [EvRead; EvNthChunkDone an_error chunk3]))
     = out (run (start (VBool false) file10) scenario_A)
       ++ [NthChunk 3; Pause; EmitError an_error; PushNull; EmitClose VUndefined].
Proof. repeat split. Qed.

(** Whatever answers the fourth fetch of scenario A, the session is not the
    one C3 describes: a failure adds an error signal, a success with a
    chunk read from its start a fourth unit. *)
Lemma scenario_A_fourth_answer (err : value) (chunk : Chunk.t) :
  (truthy err = true ->
   count is_error
     (out (run (start (VBool false) file10)
             (scenario_A ++ [EvRead; EvNthChunkDone err chunk]))) = 1%nat)
  /\ (truthy err = false ->
      Chunk.internalPosition chunk = 0%nat ->
      unit_sizes
        (out (run (start (VBool false) file10)
                (scenario_A ++ [EvRead; EvNthChunkDone err chunk])))
      = [4; 4; 2; List.length (Chunk.unread chunk)]%nat).
Proof.
  unfold run. rewrite fold_left_app.
  change (fold_left step scenario_A (start (VBool false) file10))
    with (mkWorld
            (mkReadStream (VBool false)
               (GridStore.mk 10 4 (consumed 2 chunk2) 0 "r") 3 2 0
               false false 2)
            [Push [x00; x01; x02; x03]; NthChunk 1;
             Push [x04; x05; x06; x07]; NthChunk 2; Push [x08; x09]]
            [] []).
  split; intros H.
  - simpl. rewrite H. simpl. rewrite (truthy_not_nullish err H). simpl.
    unfold destroy, _shutdown. simpl. rewrite H. reflexivity.
  - intros P. simpl. rewrite H. simpl. rewrite readSlice_all by exact P.
    reflexivity.
Qed.

(** C4.  [_shutdown] on a closed stream returns the stream as it is, with
    nothing emitted.  A second [destroy], whatever its argument, changes
    nothing and emits nothing after the first.  On a stream neither closed
    nor destroyed the two together pause, emit the first call's error if it
    has one, signal the end, and emit the close signal or call
    [gstore.close]; in any session that contains them the close signal is
    emitted once, or is still due from [gstore.close]. *)
Theorem shutdown_and_destroy_run_once :
  forall (w : World) (err e1 e2 : value),
    (_closed (rs w) = true -> _shutdown err w = w)
    /\ destroy e2 (destroy e1 w) = destroy e1 w
    /\ (active w ->
        out (destroy e2 (destroy e1 w))
        = out w ++ Pause :: error_signal e1
                ++ [PushNull;
                    if releases (rs w) then GsClose else EmitClose VUndefined])
    /\ (forall (a : value) (gs : GridStore.t) (evs evs' : list Event),
          w = run (start a gs) evs ->
          (count is_close (out (run (destroy e2 (destroy e1 w)) evs'))
           + List.length (pendingClose (run (destroy e2 (destroy e1 w)) evs'))
           = 1)%nat
          /\ (releases (rs w) = false ->
              count is_close (out (run (destroy e2 (destroy e1 w)) evs'))
              = 1%nat)).
Proof.
  intros w err e1 e2. rewrite destroy_twice. repeat split.
  - apply shutdown_when_closed.
  - intros A. rewrite destroy_when_active by exact A. reflexivity.
  - subst w.
    change (destroy e1 (run (start a gs) evs))
      with (run (run (start a gs) evs) [EvDestroy e1]).
    rewrite <- !run_app. apply one_close_signal.
    rewrite !run_app.
    destruct (Frame_run evs' (run (run (start a gs) evs) [EvDestroy e1]))
      as (_ & _ & _ & _ & _ & C & _).
    apply C. simpl. apply destroy_closes. apply Inv_run. apply Inv_start.
  - intros R. subst w.
    change (destroy e1 (run (start a gs) evs))
      with (run (run (start a gs) evs) [EvDestroy e1]).
    rewrite <- !run_app. apply one_close_signal.
    + rewrite !run_app.
      destruct (Frame_run evs' (run (run (start a gs) evs) [EvDestroy e1]))
        as (_ & _ & _ & _ & _ & C & _).
      apply C. simpl. apply destroy_closes. apply Inv_run. apply Inv_start.
    + rewrite <- (releases_Frame _ _ (Frame_run evs (start a gs))). exact R.
Qed.

Lemma shutdown_and_destroy_run_once_witness :
  out (destroy another_error
         (destroy an_error (run (start (VBool false) file10) [EvRead])))
  = [Push [x00; x01; x02; x03]; Pause; EmitError an_error; PushNull;
     EmitClose VUndefined].
Proof.
  destruct (shutdown_and_destroy_run_once
              (run (start (VBool false) file10) [EvRead])
              VUndefined an_error another_error)
    as (_ & _ & H & _).
  apply H. split; reflexivity.
Defined.

(** C5.  A fetch fails while the stream is neither closed nor destroyed
    and no other fetch is outstanding.  Nothing terminal has been
    signalled before.  The failure pauses the stream and emits, in this
    order, that error as an error signal, the end of data, and the close
    signal, or the call of [gstore.close] when the stream releases the
    file; [gstore.close]'s answer then brings the close signal, after an
    error signal of its own if it has failed.  Nothing else ever follows:
    no unit, no fetch, no second end.  So the fetch failure has exactly
    one error signal, the session one end-of-data signal, and one close
    signal once [gstore.close], where it is called, has answered. *)
Theorem fetch_failure_ends_the_session :
  forall (a : value) (gs : GridStore.t) (evs : list Event)
         (err : value) (chunk : Chunk.t) (evs' : list Event),
    active (run (start a gs) evs) ->
    pendingNthChunk (run (start a gs) evs) = [K_advance (K_readChunk K_read)] ->
    truthy err = true ->
    let w := run (start a gs) evs in
    let w2 := run (step w (EvNthChunkDone err chunk)) evs' in
    out w2
    = out w ++ [Pause; EmitError err; PushNull]
        ++ (if releases (rs w)
            then GsClose
                   :: match first_close evs' with
                      | Some (cerr, doc) => error_signal cerr ++ [EmitClose doc]
                      | None => []
                      end
            else [EmitClose VUndefined])
    /\ count is_error (out w) = 0%nat
    /\ count is_end (out w) = 0%nat
    /\ count is_close (out w) = 0%nat
    /\ units (out w2) = units (out w)
    /\ fetch_numbers (out w2) = fetch_numbers (out w)
    /\ count is_end (out w2) = 1%nat
    /\ count is_error (out w2)
       = (1 + if releases (rs w)
              then match first_close evs' with
                   | Some (cerr, _) => if truthy cerr then 1 else 0
                   | None => 0
                   end
              else 0)%nat
    /\ count is_close (out w2)
       = (if releases (rs w)
          then match first_close evs' with Some _ => 1 | None => 0 end
          else 1)%nat.
Proof.
  intros a gs evs err chunk evs' A P T w w2.
  pose proof (Inv_run evs _ (Inv_start a gs)) as I. fold w in I, A, P.
  destruct A as [D C]. unfold Inv in I. rewrite C in I.
  destruct I as (_ & Pc & He & Hc & Hr).
  assert (E : step w (EvNthChunkDone err chunk)
              = mkWorld (set_closed (set_destroyed (rs w)))
                        (out w ++ Pause :: shutdown_trace err (rs w))
                        []
                        (if releases (rs w) then [K_shutdown] else [])).
  { simpl. rewrite P. simpl. rewrite T. simpl.
    rewrite (truthy_not_nullish err T). simpl.
    rewrite destroy_when_active by (split; assumption).
    simpl. rewrite Pc. reflexivity. }
  assert (O : out w2
              = out w ++ [Pause; EmitError err; PushNull]
                  ++ (if releases (rs w)
                      then GsClose
                             :: match first_close evs' with
                                | Some (cerr, doc) =>
                                    error_signal cerr ++ [EmitClose doc]
                                | None => []
                                end
                      else [EmitClose VUndefined])).
  { unfold w2. rewrite E. unfold shutdown_trace, error_signal. rewrite T.
    destruct (releases (rs w)).
    - rewrite settled_run_release by (repeat split).
      cbn [out]. rewrite <- !app_assoc. reflexivity.
    - rewrite settled_run_idle by (repeat split). reflexivity. }
  split; [exact O|].
  split; [exact Hr|]. split; [exact He|]. split; [exact Hc|].
  rewrite O. rewrite units_app, fetch_numbers_app, !count_app, He, Hr, Hc.
  unfold error_signal.
  destruct (releases (rs w)); [destruct (first_close evs') as [[cerr doc] |];
                               [destruct (truthy cerr)|] |];
    cbn; rewrite ?app_nil_r; repeat split.
Qed.

Lemma fetch_failure_ends_the_session_witness :
  out (run (start (VBool true) file10_w)
         [EvRead; EvRead; EvNthChunkDone an_error chunk1;
          EvRead; EvCloseDone VNull a_doc])
  = [Push [x00; x01; x02; x03]; NthChunk 1; Pause; EmitError an_error;
     PushNull; GsClose; EmitClose a_doc].
Proof.
  destruct (fetch_failure_ends_the_session (VBool true) file10_w
              [EvRead; EvRead] an_error chunk1 [EvRead; EvCloseDone VNull a_doc])
    as (H & _);
    [split; reflexivity | reflexivity | reflexivity |].
  exact H.
Defined.

(** Two sessions with a second event of their own: [gstore.close] failing
    after the fetch has failed gives a second error signal, and a fetch
    that fails after [destroy()] without an error gives none. *)
Lemma fetch_failure_error_signals :
  count is_error
    (out (run (start (VBool true) file10_w)
            [EvRead; EvRead; EvNthChunkDone an_error chunk1;
             EvCloseDone another_error a_doc])) = 2%nat
  /\ out (run (start (VBool true) file10_w)
            [EvRead; EvRead; EvNthChunkDone an_error chunk1;
             EvCloseDone another_error a_doc])
     = [Push [x00; x01; x02; x03]; NthChunk 1; Pause; EmitError an_error;
        PushNull; GsClose; EmitError another_error; EmitClose a_doc]
  /\ count is_error
       (out (run (start (VBool false) file10)
               [EvRead; EvRead; EvDestroy VUndefined;
                EvNthChunkDone an_error chunk1])) = 0%nat.
Proof. repeat split. Qed.

(** C6, as the code has it.  On a stream that is closed or destroyed
    [_advance] and [_readChunk] return at once: the callback is not called,
    nothing is fetched and nothing changes. *)
Theorem closed_stream_drops_the_callback :
  forall (cb : AdvanceCb) (cb' : ReadChunkCb) (w : World),
    _destroyed (rs w) || _closed (rs w) = true ->
    _advance cb w = w /\ _readChunk cb' w = w.
Proof.
  intros cb cb' w H. unfold _readChunk, _advance. rewrite H. split; reflexivity.
Qed.

Lemma closed_stream_drops_the_callback_witness :
  _advance (K_advance_caller 0) (destroy VUndefined (start VNull file10))
  = destroy VUndefined (start VNull file10)
  /\ _readChunk (K_readChunk_caller 0) (destroy VUndefined (start VNull file10))
     = destroy VUndefined (start VNull file10).
Proof.
  apply (closed_stream_drops_the_callback (K_advance_caller 0)
           (K_readChunk_caller 0) (destroy VUndefined (start VNull file10))).
  reflexivity.
Defined.

(** C6 as stated fails: on a destroyed stream neither operation ever calls
    the callback it was given. *)
Lemma closed_stream_never_calls_back :
  _destroyed (rs (destroy VUndefined (start VNull file10))) = true
  /\ count is_called
       (out (_advance (K_advance_caller 0)
               (destroy VUndefined (start VNull file10)))) = 0%nat
  /\ count is_called
       (out (_readChunk (K_readChunk_caller 0)
               (destroy VUndefined (start VNull file10)))) = 0%nat
  /\ pendingNthChunk
       (_advance (K_advance_caller 0)
          (destroy VUndefined (start VNull file10))) = [].
Proof. repeat split. Qed.

(** C7 fails on the code.  The chunk that arrives after [destroy] is
    installed as [gstore.currentChunk], read, and pushed after the end and
    close signals. *)
Theorem late_chunk_is_pushed_after_destroy :
  out (run (start (VBool false) file10) scenario_D)
  = [Push [x00; x01; x02; x03]; NthChunk 1; Pause; EmitError an_error;
     PushNull; EmitClose VUndefined; Push [x04; x05; x06; x07]]
  /\ GridStore.currentChunk (gstore (rs (run (start (VBool false) file10) scenario_D)))
     = consumed 4 chunk1
  /\ lastRead (rs (run (start (VBool false) file10) scenario_D)) = 1.
Proof. repeat split. Qed.

(** The same for every destroyed stream with a pull's fetch outstanding,
    answered with a chunk read from its start. *)
Lemma late_chunk_is_pushed (w : World) (ks : list NthChunkCb) (chunk : Chunk.t) :
  _destroyed (rs w) = true ->
  _closed (rs w) = true ->
  pendingNthChunk w = K_advance (K_readChunk K_read) :: ks ->
  seekStartPosition (rs w) = 0 ->
  Chunk.internalPosition chunk = 0%nat ->
  out (step w (EvNthChunkDone VNull chunk)) = out w ++ [Push (Chunk.unread chunk)]
  /\ GridStore.currentChunk (gstore (rs (step w (EvNthChunkDone VNull chunk))))
     = consumed (List.length (Chunk.unread chunk)) chunk.
Proof.
  intros D C P S F. simpl. rewrite P. simpl. rewrite S. simpl.
  rewrite readSlice_all by exact F. simpl.
  destruct (_ >=? _); [rewrite shutdown_when_closed by exact C |];
    split; reflexivity.
Qed.

(** C8, as the code has it.  The constructor checks nothing: whatever the
    handle reports, it returns a stream that is neither closed nor
    destroyed and stores [position - chunkNumber * chunkSize] as the seek
    offset.  An offset that is not positive, or not below the length of the
    loaded chunk, is not rejected later either: the production step on the
    new stream asks the chunk for [length()] bytes and leaves the offset as
    stored; with the chunk's cursor at its start that yields the whole
    chunk, with the cursor elsewhere [readSlice] answers [null]. *)
Theorem construction_stores_the_offset_unchecked :
  forall (a : value) (gs : GridStore.t) (cb : ReadChunkCb),
    seekStartPosition (new_ReadStream a gs)
    = GridStore.position gs
      - Chunk.chunkNumber (GridStore.currentChunk gs) * GridStore.chunkSize gs
    /\ gstore (new_ReadStream a gs) = gs
    /\ _closed (new_ReadStream a gs) = false
    /\ _destroyed (new_ReadStream a gs) = false
    /\ (seekStartPosition (new_ReadStream a gs) <= 0
        \/ Chunk.length (GridStore.currentChunk gs)
           <= seekStartPosition (new_ReadStream a gs) ->
        (Chunk.internalPosition (GridStore.currentChunk gs) = 0%nat ->
         apply_advance (K_readChunk cb) VNull (start a gs)
         = apply_readChunk cb VNull
             (Some (Chunk.unread (GridStore.currentChunk gs)))
             (produced (start a gs)
                (consumed
                   (List.length (Chunk.unread (GridStore.currentChunk gs)))
                   (GridStore.currentChunk gs))
                (seekStartPosition (new_ReadStream a gs))))
        /\ (Chunk.internalPosition (GridStore.currentChunk gs) <> 0%nat ->
            apply_advance (K_readChunk cb) VNull (start a gs)
            = apply_readChunk cb VNull None
                (produced (start a gs) (GridStore.currentChunk gs)
                   (seekStartPosition (new_ReadStream a gs))))).
Proof.
  intros a gs cb. repeat split.
  - intros P. apply (produce_whole cb VNull (start a gs) eq_refl H P).
  - intros P. apply (produce_nothing cb VNull (start a gs) eq_refl H P).
Qed.

Lemma construction_stores_the_offset_unchecked_witness :
  apply_advance (K_readChunk (K_readChunk_caller 0)) VNull (start VNull file10_bad)
  = emit (CalledReadChunk 0 VNull (Some [x00; x01; x02; x03]))
      (upd (set_lastRead 0)
         (upd (set_currentChunk (consumed 4 chunk0)) (start VNull file10_bad))).
Proof.
  destruct (construction_stores_the_offset_unchecked VNull file10_bad
              (K_readChunk_caller 0))
    as (_ & _ & _ & _ & H).
  destruct H as [H _]; [right; vm_compute; intros E; discriminate E |].
  rewrite H by reflexivity. reflexivity.
Defined.

(** C8 as stated fails: a handle at position 9 with chunk 0 loaded and
    chunks of four bytes gives offset 9, the stream is constructed all the
    same, and its first pull produces the whole of chunk 0. *)
Lemma malformed_offset_is_accepted :
  GridStore.chunkSize file10_bad = 4
  /\ seekStartPosition (new_ReadStream VNull file10_bad) = 9
  /\ _closed (new_ReadStream VNull file10_bad) = false
  /\ out (run (start VNull file10_bad) [EvRead]) = [Push [x00; x01; x02; x03]]
  /\ seekStartPosition (rs (run (start VNull file10_bad) [EvRead])) = 9.
Proof. repeat split. Qed.

(** C9.  [_shutdown] of a stream not yet closed, with autoclose on and a
    mode that starts with "w", signals the end of data and calls
    [gstore.close], its callback outstanding.  When that callback runs it
    emits the close signal whether or not it got an error; an error is
    emitted first, as an error signal. *)
Theorem close_signal_follows_the_release :
  forall (err : value) (w : World),
    _closed (rs w) = false ->
    truthy (autoclose (rs w)) = true ->
    mode_starts_with_w (GridStore.mode (gstore (rs w))) = true ->
    _shutdown err w
    = mkWorld (set_closed (rs w))
              (out w ++ error_signal err ++ [PushNull; GsClose])
              (pendingNthChunk w)
              (pendingClose w ++ [K_shutdown])
    /\ (forall (cerr doc : value) (w' : World),
          apply_close K_shutdown cerr doc w'
          = mkWorld (rs w')
                    (out w' ++ error_signal cerr ++ [EmitClose doc])
                    (pendingNthChunk w')
                    (pendingClose w'))
    /\ (forall cerr doc : value,
          pendingClose w = [] ->
          out (step (_shutdown err w) (EvCloseDone cerr doc))
          = out w ++ error_signal err ++ [PushNull; GsClose]
                  ++ error_signal cerr ++ [EmitClose doc]).
Proof.
  intros err w C A M.
  assert (R : releases (rs w) = true) by (unfold releases; rewrite A, M; reflexivity).
  assert (E : forall (cerr doc : value) (w' : World),
             apply_close K_shutdown cerr doc w'
             = mkWorld (rs w')
                       (out w' ++ error_signal cerr ++ [EmitClose doc])
                       (pendingNthChunk w')
                       (pendingClose w')).
  { intros cerr doc w'. unfold apply_close, error_signal, emit.
    destruct (truthy cerr); simpl; rewrite <- ?app_assoc; reflexivity. }
  rewrite shutdown_when_open by exact C.
  unfold shutdown_trace. rewrite R.
  repeat split.
  - exact E.
  - intros cerr doc P. unfold step. cbn [pendingClose]. rewrite P.
    cbn [app]. rewrite E. cbn [out]. rewrite <- !app_assoc. reflexivity.
Qed.

Lemma close_signal_follows_the_release_witness :
  out (step (_shutdown an_error (start (VBool true) file10_w))
         (EvCloseDone another_error a_doc))
  = [EmitError an_error; PushNull; GsClose; EmitError another_error;
     EmitClose a_doc].
Proof.
  destruct (close_signal_follows_the_release an_error
              (start (VBool true) file10_w))
    as (_ & _ & H); [reflexivity | reflexivity | reflexivity |].
  apply (H another_error a_doc). reflexivity.
Defined.

(** C10.  An [autoclose] argument that is [null] or [undefined] makes the
    policy [false], and then no session, however it ends, calls
    [gstore.close]. *)
Theorem autoclose_defaults_to_false :
  forall (a : value) (gs : GridStore.t) (evs : list Event),
    nullish a = true ->
    autoclose (new_ReadStream a gs) = VBool false
    /\ count is_gs_close (out (run (start a gs) evs)) = 0%nat.
Proof.
  intros a gs evs N.
  assert (A : autoclose (new_ReadStream a gs) = VBool false).
  { unfold new_ReadStream. simpl. rewrite N. reflexivity. }
  split; [exact A|].
  destruct (Frame_run evs (start a gs)) as (_ & _ & _ & _ & _ & _ & _ & G).
  rewrite G; [reflexivity|].
  unfold releases. simpl rs. rewrite A. reflexivity.
Qed.

Lemma autoclose_defaults_to_false_witness :
  autoclose (new_ReadStream VUndefined file10_w) = VBool false
  /\ count is_gs_close
       (out (run (start VUndefined file10_w)
               [EvRead; EvDestroy an_error])) = 0%nat.
Proof.
  apply (autoclose_defaults_to_false VUndefined file10_w
           [EvRead; EvDestroy an_error]).
  reflexivity.
Defined.

(** * Further properties *)

(** ** The constructor's arithmetic *)

Lemma ceil_div_bounds (a b : Z) :
  0 < b -> (ceil_div a b - 1) * b < a <= ceil_div a b * b.
Proof.
  intros Hb. unfold ceil_div.
  pose proof (Z.div_mod (- a) b ltac:(lia)) as E.
  pose proof (Z.mod_pos_bound (- a) b Hb) as B.
  nia.
Qed.

(** X1.  With a positive chunk size, [numberOfChunks] chunks cover the
    file's length and one fewer do not; it is the only number with that
    property, and it is zero for an empty file. *)
Theorem numberOfChunks_covers_the_file :
  forall (a : value) (gs : GridStore.t),
    0 < GridStore.chunkSize gs ->
    (numberOfChunks (new_ReadStream a gs) - 1) * GridStore.chunkSize gs
      < GridStore.length gs
      <= numberOfChunks (new_ReadStream a gs) * GridStore.chunkSize gs
    /\ (forall n : Z,
          (n - 1) * GridStore.chunkSize gs < GridStore.length gs
            <= n * GridStore.chunkSize gs ->
          n = numberOfChunks (new_ReadStream a gs))
    /\ (GridStore.length gs = 0 -> numberOfChunks (new_ReadStream a gs) = 0).
Proof.
  intros a gs Hb. simpl.
  pose proof (ceil_div_bounds (GridStore.length gs) (GridStore.chunkSize gs) Hb)
    as B.
  split; [exact B|]. split.
  - intros n Hn. nia.
  - intros H0. rewrite H0 in *. nia.
Qed.

Lemma numberOfChunks_covers_the_file_witness :
  (numberOfChunks (new_ReadStream VNull file10) - 1) * 4 < 10
    <= numberOfChunks (new_ReadStream VNull file10) * 4.
Proof.
  destruct (numberOfChunks_covers_the_file VNull file10) as [H _];
    [reflexivity | exact H].
Defined.

(** X2.  With a positive chunk size, the seek offset lies within one chunk
    exactly when the loaded chunk is the one that contains the handle's
    position, and it is then the position's offset in that chunk. *)
Theorem seek_offset_within_the_loaded_chunk :
  forall (a : value) (gs : GridStore.t),
    0 < GridStore.chunkSize gs ->
    (0 <= seekStartPosition (new_ReadStream a gs) < GridStore.chunkSize gs
     <-> Chunk.chunkNumber (GridStore.currentChunk gs)
         = GridStore.position gs / GridStore.chunkSize gs)
    /\ (Chunk.chunkNumber (GridStore.currentChunk gs)
        = GridStore.position gs / GridStore.chunkSize gs ->
        seekStartPosition (new_ReadStream a gs)
        = GridStore.position gs mod GridStore.chunkSize gs).
Proof.
  intros a gs Hb. simpl.
  pose proof (Z.div_mod (GridStore.position gs) (GridStore.chunkSize gs)
                ltac:(lia)) as E.
  pose proof (Z.mod_pos_bound (GridStore.position gs) (GridStore.chunkSize gs) Hb)
    as B.
  split; [split|].
  - intros H. apply (Z.div_unique _ _ _
       (GridStore.position gs
        - Chunk.chunkNumber (GridStore.currentChunk gs) * GridStore.chunkSize gs));
      [left; exact H | lia].
  - intros ->. lia.
  - intros ->. lia.
Qed.

Lemma seek_offset_within_the_loaded_chunk_witness :
  seekStartPosition (new_ReadStream VNull file10_at5) = 5 mod 4.
Proof.
  destruct (seek_offset_within_the_loaded_chunk VNull file10_at5) as [_ H];
    [reflexivity |].
  apply H. reflexivity.
Defined.

(** ** Whole sessions *)

(** X3.  In every session the end of data is signalled once if
    [_shutdown] has run and not at all otherwise; the same holds for the
    close signal, counting the one still due from [gstore.close]; no error
    signal comes before [_shutdown]; and a destroyed stream is closed. *)
Theorem terminal_signals_come_once :
  forall (a : value) (gs : GridStore.t) (evs : list Event),
    count is_end (out (run (start a gs) evs))
    = (if _closed (rs (run (start a gs) evs)) then 1 else 0)%nat
    /\ (count is_close (out (run (start a gs) evs))
        + List.length (pendingClose (run (start a gs) evs))
        = if _closed (rs (run (start a gs) evs)) then 1 else 0)%nat
    /\ (_closed (rs (run (start a gs) evs)) = false ->
        count is_error (out (run (start a gs) evs)) = 0%nat)
    /\ (_destroyed (rs (run (start a gs) evs)) = true ->
        _closed (rs (run (start a gs) evs)) = true).
Proof.
  intros a gs evs.
  pose proof (Inv_run evs _ (Inv_start a gs)) as I. unfold Inv in I.
  destruct (_closed (rs (run (start a gs) evs))).
  - destruct I as (He & Hc & _).
    repeat split; try assumption; intros H;
      first [discriminate H | reflexivity].
  - destruct I as (D & P & He & Hc & Hr).
    rewrite P, He, Hc.
    split; [reflexivity|]. split; [reflexivity|]. split.
    + intros _. exact Hr.
    + intros H. congruence.
Qed.

(** X4.  Whatever happens to a stream, in whatever state: the autoclose
    policy, the chunk count and the handle's mode stay as they are, neither
    flag is ever reset, the chunk number never decreases, and the seek
    offset either keeps its value or has become zero. *)
Theorem nothing_is_undone :
  forall (w : World) (evs : list Event),
    autoclose (rs (run w evs)) = autoclose (rs w)
    /\ numberOfChunks (rs (run w evs)) = numberOfChunks (rs w)
    /\ GridStore.mode (gstore (rs (run w evs))) = GridStore.mode (gstore (rs w))
    /\ (_closed (rs w) = true -> _closed (rs (run w evs)) = true)
    /\ (_destroyed (rs w) = true -> _destroyed (rs (run w evs)) = true)
    /\ currentChunkNumber (rs w) <= currentChunkNumber (rs (run w evs))
    /\ (seekStartPosition (rs (run w evs)) = seekStartPosition (rs w)
        \/ seekStartPosition (rs (run w evs)) = 0).
Proof.
  intros w evs.
  destruct (Frame_run evs w) as (A & N & M & S & C & L & D & _).
  repeat split; assumption.
Qed.

(** ** Invariants, handler by handler *)

Section Preserved.

Variable P : World -> Prop.

Hypothesis P_shutdown : forall err w, P w -> P (_shutdown err w).
Hypothesis P_destroy : forall err w, P w -> P (destroy err w).
Hypothesis P_push : forall d w, P w -> P (emit (Push d) w).
Hypothesis P_called_advance :
  forall id err w, P w -> P (emit (CalledAdvance id err) w).
Hypothesis P_called_readChunk :
  forall id err d w, P w -> P (emit (CalledReadChunk id err d) w).
Hypothesis P_set_currentChunk :
  forall c w, P w -> P (upd (set_currentChunk c) w).
Hypothesis P_set_lastRead : forall n w, P w -> P (upd (set_lastRead n) w).
Hypothesis P_set_seek : forall w, P w -> P (upd (set_seekStartPosition 0) w).
Hypothesis P_fetch :
  forall k w,
    P w ->
    P (nthChunk (currentChunkNumber (rs w) + 1) k
         (upd (set_currentChunkNumber (currentChunkNumber (rs w) + 1)) w)).
Hypothesis P_answered :
  forall w k ks,
    pendingNthChunk w = k :: ks ->
    P w -> P (mkWorld (rs w) (out w) ks (pendingClose w)).
Hypothesis P_released :
  forall w k ks err doc,
    pendingClose w = k :: ks ->
    P w ->
    P (apply_close k err doc (mkWorld (rs w) (out w) (pendingNthChunk w) ks)).

Lemma preserved_apply_readChunk (k : ReadChunkCb) (err : value)
    (data : option (list byte)) (w : World) :
  P w -> P (apply_readChunk k err data w).
Proof.
  intros H. destruct k; unfold apply_readChunk.
  - destruct (negb (nullish err)); [apply P_destroy; exact H|].
    assert (H1 : P match data with
                   | Some d => emit (Push d) w
                   | None => w
                   end)
      by (destruct data; [apply P_push|]; exact H).
    destruct (_ >=? _); [apply P_shutdown|]; exact H1.
  - apply P_called_readChunk. exact H.
Qed.

Lemma preserved_apply_advance (k : AdvanceCb) (err : value) (w : World) :
  P w -> P (apply_advance k err w).
Proof.
  intros H. destruct k as [cb | id]; unfold apply_advance.
  - destruct (truthy err); [apply preserved_apply_readChunk; exact H|].
    destruct (_ && _); destruct (Chunk.readSlice _ _) as [d c'];
      apply preserved_apply_readChunk, P_set_lastRead, P_set_currentChunk.
    + apply P_set_seek. exact H.
    + exact H.
  - apply P_called_advance. exact H.
Qed.

Lemma preserved_apply_nthChunk (k : NthChunkCb) (err : value)
    (chunk : Chunk.t) (w : World) :
  P w -> P (apply_nthChunk k err chunk w).
Proof.
  intros H. destruct k as [cb]. unfold apply_nthChunk.
  destruct (truthy err); apply preserved_apply_advance;
    [| apply P_set_currentChunk]; exact H.
Qed.

Lemma preserved_read (w : World) : P w -> P (_read w).
Proof.
  intros H. unfold _read, _readChunk, _advance.
  destruct (_ || _); [exact H|].
  destruct (_ >? _); [exact H|].
  destruct (negb _); [apply preserved_apply_advance; exact H|].
  apply P_fetch. exact H.
Qed.

Lemma preserved_step (w : World) (e : Event) : P w -> P (step w e).
Proof.
  intros H. destruct e as [| err | err chunk | err doc]; simpl.
  - apply preserved_read. exact H.
  - apply P_destroy. exact H.
  - destruct (pendingNthChunk w) as [| k ks] eqn:Q; [exact H|].
    apply preserved_apply_nthChunk. apply (P_answered w k ks Q H).
  - destruct (pendingClose w) as [| k ks] eqn:Q; [exact H|].
    apply (P_released w k ks err doc Q H).
Qed.

Lemma preserved_run (evs : list Event) (w : World) : P w -> P (run w evs).
Proof.
  revert w. induction evs as [| e evs IH]; intros w H; simpl.
  - exact H.
  - apply IH, preserved_step, H.
Qed.

End Preserved.

(** ** Releasing, pausing and error signals *)

Lemma Accounted_quiet (w w' : World) :
  _closed (rs w') = _closed (rs w) ->
  _destroyed (rs w') = _destroyed (rs w) ->
  releases (rs w') = releases (rs w) ->
  pendingClose w' = pendingClose w ->
  count is_gs_close (out w') = count is_gs_close (out w) ->
  count is_pause (out w') = count is_pause (out w) ->
  count is_error (out w') = count is_error (out w) ->
  Accounted w -> Accounted w'.
Proof.
  unfold Accounted. intros -> -> -> -> -> -> ->. exact (fun H => H).
Qed.

Lemma Accounted_emit (a : Action) (w : World) :
  is_gs_close a = false -> is_pause a = false -> is_error a = false ->
  Accounted w -> Accounted (emit a w).
Proof.
  intros Hg Hp He. apply Accounted_quiet; try reflexivity; simpl;
    rewrite count_app; unfold count; simpl;
    rewrite ?Hg, ?Hp, ?He; simpl; lia.
Qed.

Lemma Accounted_shutdown (err : value) (w : World) :
  Accounted w -> Accounted (_shutdown err w).
Proof.
  destruct (_closed (rs w)) eqn:C.
  - rewrite shutdown_when_closed by exact C. exact (fun H => H).
  - rewrite shutdown_when_open by exact C.
    unfold Accounted, shutdown_trace, error_signal. rewrite C. simpl.
    change (releases (set_closed (rs w))) with (releases (rs w)).
    intros (Hg & Hp & He).
    destruct (truthy err), (releases (rs w)); simpl;
      rewrite ?length_app; repeat rewrite count_app;
      unfold count in *; simpl in *; repeat split; lia.
Qed.

Lemma Accounted_destroy (err : value) (w : World) :
  Accounted w -> Accounted (destroy err w).
Proof.
  intros H. unfold destroy.
  destruct (_destroyed (rs w)) eqn:D; [exact H|].
  apply Accounted_shutdown.
  revert H. unfold Accounted. simpl. rewrite D.
  change (releases (set_destroyed (rs w))) with (releases (rs w)).
  repeat rewrite count_app. unfold count. simpl. lia.
Qed.

Lemma Accounted_released (w : World) (k : CloseCb) (ks : list CloseCb)
    (err doc : value) :
  pendingClose w = k :: ks ->
  Accounted w ->
  Accounted (apply_close k err doc
               (mkWorld (rs w) (out w) (pendingNthChunk w) ks)).
Proof.
  intros Q. destruct k. unfold Accounted, apply_close. rewrite Q.
  destruct (truthy err); simpl; repeat rewrite count_app;
    unfold count; simpl; lia.
Qed.

Lemma Accounted_run (evs : list Event) (w : World) :
  Accounted w -> Accounted (run w evs).
Proof.
  apply preserved_run.
  - apply Accounted_shutdown.
  - apply Accounted_destroy.
  - intros d w0. apply Accounted_emit; reflexivity.
  - intros id err w0. apply Accounted_emit; reflexivity.
  - intros id err d w0. apply Accounted_emit; reflexivity.
  - intros c w0. apply Accounted_quiet; reflexivity.
  - intros n w0. apply Accounted_quiet; reflexivity.
  - intros w0. apply Accounted_quiet; reflexivity.
  - intros k w0. apply Accounted_quiet; try reflexivity; simpl;
      rewrite count_app; unfold count; simpl; lia.
  - intros w0 k ks _. apply Accounted_quiet; reflexivity.
  - apply Accounted_released.
Qed.

(** X5.  In every session [gstore.close] is called once if the stream is
    closed and releases the file (autoclose on, mode starting with "w") and
    never otherwise; [pause] is called once if the stream is destroyed and
    never otherwise; and there are at most two error signals, at most one
    when the stream does not release the file. *)
Theorem release_and_pause_come_once :
  forall (a : value) (gs : GridStore.t) (evs : list Event),
    count is_gs_close (out (run (start a gs) evs))
    = (if _closed (rs (run (start a gs) evs))
          && releases (new_ReadStream a gs)
       then 1 else 0)%nat
    /\ count is_pause (out (run (start a gs) evs))
       = (if _destroyed (rs (run (start a gs) evs)) then 1 else 0)%nat
    /\ (count is_error (out (run (start a gs) evs))
        <= if releases (new_ReadStream a gs) then 2 else 1)%nat.
Proof.
  intros a gs evs.
  assert (A0 : Accounted (start a gs)) by (unfold Accounted; simpl; repeat split; lia).
  destruct (Accounted_run evs _ A0) as (Hg & Hp & He).
  rewrite (releases_Frame _ _ (Frame_run evs (start a gs))) in Hg.
  change (rs (start a gs)) with (new_ReadStream a gs) in Hg.
  split; [exact Hg|]. split; [exact Hp|].
  rewrite Hg in He.
  destruct (_closed (rs (run (start a gs) evs))),
    (releases (new_ReadStream a gs)); simpl in He; lia.
Qed.

(** ** The order of fetches *)

Lemma fetch_numbers_other (a : Action) :
  is_fetch a = false -> fetch_numbers [a] = [].
Proof. destruct a; simpl; intros H; try reflexivity; discriminate H. Qed.

Lemma fetch_numbers_shutdown_trace (err : value) (s : ReadStream) :
  fetch_numbers (shutdown_trace err s) = [].
Proof.
  unfold shutdown_trace, error_signal.
  destruct (truthy err), (releases s); reflexivity.
Qed.

Lemma count_up_snoc (n : nat) (c : Z) :
  count_up c (S n) = count_up c n ++ [c + Z.of_nat n + 1].
Proof.
  revert c. induction n as [| n IH]; intros c.
  - simpl. f_equal. lia.
  - change (count_up c (S (S n))) with ((c + 1) :: count_up (c + 1) (S n)).
    rewrite IH. simpl. do 3 f_equal. lia.
Qed.

Lemma InOrder_quiet (c0 : Z) (w w' : World) :
  fetch_numbers (out w') = fetch_numbers (out w) ->
  currentChunkNumber (rs w') = currentChunkNumber (rs w) ->
  InOrder c0 w -> InOrder c0 w'.
Proof. unfold InOrder. intros -> ->. exact (fun H => H). Qed.

Lemma InOrder_emit (c0 : Z) (a : Action) (w : World) :
  is_fetch a = false -> InOrder c0 w -> InOrder c0 (emit a w).
Proof.
  intros H. apply InOrder_quiet; [| reflexivity]. simpl.
  rewrite fetch_numbers_app, (fetch_numbers_other a H), app_nil_r. reflexivity.
Qed.

Lemma InOrder_shutdown (c0 : Z) (err : value) (w : World) :
  InOrder c0 w -> InOrder c0 (_shutdown err w).
Proof.
  destruct (_closed (rs w)) eqn:C.
  - rewrite shutdown_when_closed by exact C. exact (fun H => H).
  - rewrite shutdown_when_open by exact C.
    apply InOrder_quiet; [| reflexivity]. simpl.
    rewrite fetch_numbers_app, fetch_numbers_shutdown_trace, app_nil_r.
    reflexivity.
Qed.

Lemma InOrder_destroy (c0 : Z) (err : value) (w : World) :
  InOrder c0 w -> InOrder c0 (destroy err w).
Proof.
  intros H. unfold destroy. destruct (_destroyed (rs w)); [exact H|].
  apply InOrder_shutdown, InOrder_emit; [reflexivity|].
  revert H. apply InOrder_quiet; reflexivity.
Qed.

Lemma InOrder_fetch (c0 : Z) (k : NthChunkCb) (w : World) :
  InOrder c0 w ->
  InOrder c0
    (nthChunk (currentChunkNumber (rs w) + 1) k
       (upd (set_currentChunkNumber (currentChunkNumber (rs w) + 1)) w)).
Proof.
  unfold InOrder. simpl. intros [Hf Hc].
  rewrite fetch_numbers_app. simpl. rewrite length_app. simpl.
  rewrite Nat.add_1_r, count_up_snoc, <- Hf, Hc. split; [reflexivity | lia].
Qed.

Lemma InOrder_run (c0 : Z) (evs : list Event) (w : World) :
  InOrder c0 w -> InOrder c0 (run w evs).
Proof.
  apply preserved_run.
  - apply InOrder_shutdown.
  - apply InOrder_destroy.
  - intros d w0. apply InOrder_emit. reflexivity.
  - intros id err w0. apply InOrder_emit. reflexivity.
  - intros id err d w0. apply InOrder_emit. reflexivity.
  - intros c w0. apply InOrder_quiet; reflexivity.
  - intros n w0. apply InOrder_quiet; reflexivity.
  - intros w0. apply InOrder_quiet; reflexivity.
  - apply InOrder_fetch.
  - intros w0 k ks _. apply InOrder_quiet; reflexivity.
  - intros w0 k ks err doc _. destruct k. unfold apply_close. intros H.
    apply InOrder_emit; [reflexivity|].
    destruct (truthy err); [apply InOrder_emit; [reflexivity|] |];
      revert H; apply InOrder_quiet; reflexivity.
Qed.

(** X6.  In every session, however pulls, answers and cancellations
    interleave, the chunk numbers asked of [gstore._nthChunk] are the ones
    that follow the chunk loaded at construction, each once and in order,
    the last being the current chunk number. *)
Theorem chunks_are_fetched_in_order :
  forall (a : value) (gs : GridStore.t) (evs : list Event),
    Chunk.chunkNumber (GridStore.currentChunk gs)
      <= currentChunkNumber (rs (run (start a gs) evs))
    /\ fetch_numbers (out (run (start a gs) evs))
       = count_up (Chunk.chunkNumber (GridStore.currentChunk gs))
           (Z.to_nat (currentChunkNumber (rs (run (start a gs) evs))
                      - Chunk.chunkNumber (GridStore.currentChunk gs))).
Proof.
  intros a gs evs.
  assert (I0 : InOrder (Chunk.chunkNumber (GridStore.currentChunk gs))
                 (start a gs))
    by (unfold InOrder; simpl; split; [reflexivity | lia]).
  destruct (InOrder_run _ evs _ I0) as [Hf Hc].
  split; [lia|].
  rewrite Hc.
  replace (Z.to_nat _) with
    (List.length (fetch_numbers (out (run (start a gs) evs)))) by lia.
  exact Hf.
Qed.

(** ** After the end *)

Lemma closed_idle_step (w : World) (e : Event) :
  _closed (rs w) = true ->
  pendingNthChunk w = [] ->
  _closed (rs (step w e)) = true
  /\ pendingNthChunk (step w e) = []
  /\ units (out (step w e)) = units (out w)
  /\ fetch_numbers (out (step w e)) = fetch_numbers (out w)
  /\ count is_end (out (step w e)) = count is_end (out w)
  /\ gstore (rs (step w e)) = gstore (rs w)
  /\ currentChunkNumber (rs (step w e)) = currentChunkNumber (rs w)
  /\ lastRead (rs (step w e)) = lastRead (rs w).
Proof.
  intros C P.
  destruct e as [| err | err chunk | err doc]; simpl.
  - unfold _read. rewrite C, orb_true_r. repeat split; assumption.
  - unfold destroy. destruct (_destroyed (rs w)); [repeat split; assumption|].
    rewrite shutdown_when_closed by exact C. simpl.
    rewrite units_app, fetch_numbers_app, count_app, !app_nil_r.
    unfold count. simpl. repeat split; try assumption. lia.
  - rewrite P. repeat split; assumption.
  - destruct (pendingClose w) as [| k ks]; [repeat split; assumption|].
    destruct k. unfold apply_close.
    destruct (truthy err); simpl;
      rewrite ?units_app, ?fetch_numbers_app, ?count_app; simpl;
      rewrite ?app_nil_r; unfold count; simpl;
      repeat split; try assumption; lia.
Qed.

(** X7.  Once a stream is closed and no fetch is outstanding, nothing that
    happens to it pushes a unit, fetches a chunk, signals the end again or
    touches the handle's chunk; and [destroy(err)] on a stream that has
    ended by itself only pauses: the error is not emitted. *)
Theorem closed_stream_is_inert :
  forall (w : World) (evs : list Event),
    _closed (rs w) = true ->
    pendingNthChunk w = [] ->
    units (out (run w evs)) = units (out w)
    /\ fetch_numbers (out (run w evs)) = fetch_numbers (out w)
    /\ count is_end (out (run w evs)) = count is_end (out w)
    /\ gstore (rs (run w evs)) = gstore (rs w)
    /\ currentChunkNumber (rs (run w evs)) = currentChunkNumber (rs w)
    /\ lastRead (rs (run w evs)) = lastRead (rs w)
    /\ (_destroyed (rs w) = false ->
        forall err : value, out (destroy err w) = out w ++ [Pause]).
Proof.
  intros w evs C P.
  assert (G : _closed (rs (run w evs)) = true
              /\ pendingNthChunk (run w evs) = []
              /\ units (out (run w evs)) = units (out w)
              /\ fetch_numbers (out (run w evs)) = fetch_numbers (out w)
              /\ count is_end (out (run w evs)) = count is_end (out w)
              /\ gstore (rs (run w evs)) = gstore (rs w)
              /\ currentChunkNumber (rs (run w evs)) = currentChunkNumber (rs w)
              /\ lastRead (rs (run w evs)) = lastRead (rs w)).
  { revert w C P. induction evs as [| e evs IH]; intros w C P; simpl.
    - repeat split; assumption.
    - destruct (closed_idle_step w e C P)
        as (C1 & P1 & U1 & F1 & E1 & G1 & N1 & L1).
      destruct (IH _ C1 P1) as (C2 & P2 & U2 & F2 & E2 & G2 & N2 & L2).
      repeat split; congruence. }
  destruct G as (_ & _ & U & F & E & G & N & L).
  repeat split; try assumption.
  intros D err. unfold destroy. rewrite D.
  rewrite shutdown_when_closed by exact C. reflexivity.
Qed.

Lemma closed_stream_is_inert_witness :
  units (out (run (run (start (VBool false) file10)
                     (scenario_A ++ [EvRead; EvNthChunkDone VNull chunk3]))
                [EvRead; EvDestroy an_error; EvRead]))
  = [[x00; x01; x02; x03]; [x04; x05; x06; x07]; [x08; x09]; []].
Proof.
  destruct (closed_stream_is_inert
              (run (start (VBool false) file10)
                 (scenario_A ++ [EvRead; EvNthChunkDone VNull chunk3]))
              [EvRead; EvDestroy an_error; EvRead])
    as (H & _); [reflexivity | reflexivity |].
  rewrite H. reflexivity.
Defined.

(** X8.  When a fetch issued by a pull fails after the stream has been
    destroyed, the failure changes nothing and is not signalled: the
    callback is used up and that is all. *)
Theorem failure_after_destroy_is_dropped :
  forall (w : World) (ks : list NthChunkCb) (err : value) (chunk : Chunk.t),
    _destroyed (rs w) = true ->
    pendingNthChunk w = K_advance (K_readChunk K_read) :: ks ->
    truthy err = true ->
    step w (EvNthChunkDone err chunk)
    = mkWorld (rs w) (out w) ks (pendingClose w).
Proof.
  intros w ks err chunk D P T. simpl. rewrite P. simpl. rewrite T. simpl.
  rewrite (truthy_not_nullish err T). simpl.
  apply destroy_when_destroyed. exact D.
Qed.

Lemma failure_after_destroy_is_dropped_witness :
  out (run (start (VBool false) file10)
         [EvRead; EvRead; EvDestroy VUndefined; EvNthChunkDone an_error chunk1])
  = out (run (start (VBool false) file10)
           [EvRead; EvRead; EvDestroy VUndefined]).
Proof.
  change (run (start (VBool false) file10)
            [EvRead; EvRead; EvDestroy VUndefined; EvNthChunkDone an_error chunk1])
    with (step (run (start (VBool false) file10)
                  [EvRead; EvRead; EvDestroy VUndefined])
               (EvNthChunkDone an_error chunk1)).
  rewrite (failure_after_destroy_is_dropped
             (run (start (VBool false) file10)
                [EvRead; EvRead; EvDestroy VUndefined])
             [] an_error chunk1);
    reflexivity.
Defined.

(** ** A session with a handle that answers every fetch *)

Lemma last_fetch_number (l : list Action) (n : Z) :
  last (fetch_numbers (l ++ [NthChunk n])) 0 = n.
Proof. rewrite fetch_numbers_app. simpl. apply last_last. Qed.

Lemma shutdown_trace_same (err : value) (s s' : ReadStream) :
  releases s' = releases s -> shutdown_trace err s' = shutdown_trace err s.
Proof. unfold shutdown_trace. intros ->. reflexivity. Qed.

Lemma units_shutdown_trace (err : value) (s : ReadStream) :
  units (shutdown_trace err s) = [].
Proof.
  unfold shutdown_trace, error_signal.
  destruct (truthy err), (releases s); reflexivity.
Qed.

Lemma units_expected (file : Z -> Chunk.t) (n : nat) (c : Z) :
  units (expected file c n)
  = map (fun i => Chunk.unread (file i)) (count_up c n).
Proof.
  revert c. induction n as [| n IH]; intros c; simpl; [reflexivity|].
  rewrite IH. reflexivity.
Qed.

Lemma fetch_numbers_expected (file : Z -> Chunk.t) (n : nat) (c : Z) :
  fetch_numbers (expected file c n) = count_up c n.
Proof.
  revert c. induction n as [| n IH]; intros c; simpl; [reflexivity|].
  rewrite IH. reflexivity.
Qed.

Lemma read_callback_success (d : list byte) (w : World) :
  apply_readChunk K_read VNull (Some d) w
  = if currentChunkNumber (rs w) >=? numberOfChunks (rs w)
    then _shutdown VUndefined (emit (Push d) w)
    else emit (Push d) w.
Proof. reflexivity. Qed.

(** One answered pull of a session that goes on. *)
Lemma pull_steady (file : Z -> Chunk.t) (w : World) :
  steady w ->
  Chunk.internalPosition (file (currentChunkNumber (rs w) + 1)) = 0%nat ->
  out (pull file w)
  = out w
    ++ [NthChunk (currentChunkNumber (rs w) + 1);
        Push (Chunk.unread (file (currentChunkNumber (rs w) + 1)))]
    ++ (if currentChunkNumber (rs w) + 1 >=? numberOfChunks (rs w)
        then shutdown_trace VUndefined (rs w) else [])
  /\ currentChunkNumber (rs (pull file w)) = currentChunkNumber (rs w) + 1
  /\ numberOfChunks (rs (pull file w)) = numberOfChunks (rs w)
  /\ releases (rs (pull file w)) = releases (rs w)
  /\ pendingNthChunk (pull file w) = []
  /\ _closed (rs (pull file w))
     = (currentChunkNumber (rs w) + 1 >=? numberOfChunks (rs w))
  /\ (currentChunkNumber (rs w) + 1 < numberOfChunks (rs w) ->
      steady (pull file w)).
Proof.
  intros ([D C] & P & L & S & B) Fr.
  assert (E1 : step w EvRead
               = mkWorld (set_currentChunkNumber (currentChunkNumber (rs w) + 1)
                            (rs w))
                         (out w ++ [NthChunk (currentChunkNumber (rs w) + 1)])
                         [K_advance (K_readChunk K_read)]
                         (pendingClose w)).
  { simpl. unfold _read, _readChunk. rewrite D, C. simpl.
    replace (_ >? _) with false
      by (symmetry; rewrite Z.gtb_ltb; apply Z.ltb_ge; lia).
    rewrite advance_fetches by (try split; assumption).
    rewrite P. reflexivity. }
  unfold pull. rewrite E1. unfold answer.
  cbn [pendingNthChunk out]. rewrite last_fetch_number.
  unfold step. cbn [pendingNthChunk rs out pendingClose].
  unfold apply_nthChunk. cbn [truthy].
  rewrite produce_whole; [| reflexivity | left; exact S | exact Fr].
  rewrite read_callback_success.
  match goal with
  | |- context [if ?b then _ else _] =>
      change b with (currentChunkNumber (rs w) + 1 >=? numberOfChunks (rs w))
  end.
  destruct (currentChunkNumber (rs w) + 1 >=? numberOfChunks (rs w)) eqn:G.
  - rewrite shutdown_when_open by exact C.
    cbn [out rs pendingNthChunk emit upd].
    rewrite <- !app_assoc. cbn [app].
    repeat split; try reflexivity; apply Z.geb_le in G; lia.
  - cbn [out rs pendingNthChunk emit upd].
    rewrite app_nil_r, <- app_assoc. cbn [app].
    repeat split; try reflexivity; try assumption.
Qed.

(** What [_read]'s callback does with a unit, nothing being outstanding. *)
Lemma unit_delivered (file : Z -> Chunk.t) (d : list byte) (w : World) :
  _closed (rs w) = false ->
  pendingNthChunk w = [] ->
  answer file (apply_readChunk K_read VNull (Some d) w)
  = apply_readChunk K_read VNull (Some d) w
  /\ out (apply_readChunk K_read VNull (Some d) w)
     = out w ++ Push d
         :: (if currentChunkNumber (rs w) >=? numberOfChunks (rs w)
             then shutdown_trace VUndefined (rs w) else [])
  /\ _closed (rs (apply_readChunk K_read VNull (Some d) w))
     = (currentChunkNumber (rs w) >=? numberOfChunks (rs w))
  /\ pendingNthChunk (apply_readChunk K_read VNull (Some d) w) = []
  /\ currentChunkNumber (rs (apply_readChunk K_read VNull (Some d) w))
     = currentChunkNumber (rs w)
  /\ numberOfChunks (rs (apply_readChunk K_read VNull (Some d) w))
     = numberOfChunks (rs w)
  /\ releases (rs (apply_readChunk K_read VNull (Some d) w)) = releases (rs w)
  /\ _destroyed (rs (apply_readChunk K_read VNull (Some d) w))
     = _destroyed (rs w)
  /\ lastRead (rs (apply_readChunk K_read VNull (Some d) w)) = lastRead (rs w)
  /\ seekStartPosition (rs (apply_readChunk K_read VNull (Some d) w))
     = seekStartPosition (rs w).
Proof.
  intros C P. rewrite read_callback_success.
  destruct (currentChunkNumber (rs w) >=? numberOfChunks (rs w)).
  - rewrite shutdown_when_open by exact C. unfold answer. simpl.
    rewrite P, <- app_assoc. repeat split.
  - unfold answer. simpl. rewrite P. repeat split. exact C.
Qed.

Lemma first_pull (file : Z -> Chunk.t) (a : value) (gs : GridStore.t) :
  Chunk.chunkNumber (GridStore.currentChunk gs) <> -1 ->
  Chunk.chunkNumber (GridStore.currentChunk gs)
    <= numberOfChunks (new_ReadStream a gs) ->
  Z.of_nat (Chunk.internalPosition (GridStore.currentChunk gs))
  = seekStartPosition (new_ReadStream a gs) ->
  seekStartPosition (new_ReadStream a gs) = 0
  \/ seekStartPosition (new_ReadStream a gs)
     < Chunk.length (GridStore.currentChunk gs) ->
  out (pull file (start a gs))
  = Push (Chunk.unread (GridStore.currentChunk gs))
      :: (if Chunk.chunkNumber (GridStore.currentChunk gs)
             >=? numberOfChunks (new_ReadStream a gs)
          then shutdown_trace VUndefined (new_ReadStream a gs) else [])
  /\ currentChunkNumber (rs (pull file (start a gs)))
     = Chunk.chunkNumber (GridStore.currentChunk gs)
  /\ numberOfChunks (rs (pull file (start a gs)))
     = numberOfChunks (new_ReadStream a gs)
  /\ releases (rs (pull file (start a gs))) = releases (new_ReadStream a gs)
  /\ pendingNthChunk (pull file (start a gs)) = []
  /\ _closed (rs (pull file (start a gs)))
     = (Chunk.chunkNumber (GridStore.currentChunk gs)
        >=? numberOfChunks (new_ReadStream a gs))
  /\ (Chunk.chunkNumber (GridStore.currentChunk gs)
      < numberOfChunks (new_ReadStream a gs) ->
      steady (pull file (start a gs))).
Proof.
  intros H1 HN HP HS.
  assert (E : step (start a gs) EvRead
              = apply_advance (K_readChunk K_read) VNull (start a gs)).
  { simpl. unfold _read, _readChunk. simpl.
    replace (_ >? _) with false
      by (symmetry; rewrite Z.gtb_ltb; apply Z.ltb_ge; exact HN).
    apply advance_not_needed; [split; reflexivity|].
    simpl. intros Heq. apply H1. symmetry. exact Heq. }
  unfold pull. rewrite E. clear E.
  assert (G : forall (d : list byte) (w0 : World),
             _closed (rs w0) = false ->
             _destroyed (rs w0) = false ->
             pendingNthChunk w0 = [] ->
             out w0 = [] ->
             currentChunkNumber (rs w0)
             = Chunk.chunkNumber (GridStore.currentChunk gs) ->
             lastRead (rs w0) = Chunk.chunkNumber (GridStore.currentChunk gs) ->
             numberOfChunks (rs w0) = numberOfChunks (new_ReadStream a gs) ->
             releases (rs w0) = releases (new_ReadStream a gs) ->
             seekStartPosition (rs w0) <= 0 ->
             d = Chunk.unread (GridStore.currentChunk gs) ->
             out (answer file (apply_readChunk K_read VNull (Some d) w0))
             = Push (Chunk.unread (GridStore.currentChunk gs))
                 :: (if Chunk.chunkNumber (GridStore.currentChunk gs)
                        >=? numberOfChunks (new_ReadStream a gs)
                     then shutdown_trace VUndefined (new_ReadStream a gs)
                     else [])
             /\ currentChunkNumber
                  (rs (answer file (apply_readChunk K_read VNull (Some d) w0)))
                = Chunk.chunkNumber (GridStore.currentChunk gs)
             /\ numberOfChunks
                  (rs (answer file (apply_readChunk K_read VNull (Some d) w0)))
                = numberOfChunks (new_ReadStream a gs)
             /\ releases
                  (rs (answer file (apply_readChunk K_read VNull (Some d) w0)))
                = releases (new_ReadStream a gs)
             /\ pendingNthChunk
                  (answer file (apply_readChunk K_read VNull (Some d) w0)) = []
             /\ _closed
                  (rs (answer file (apply_readChunk K_read VNull (Some d) w0)))
                = (Chunk.chunkNumber (GridStore.currentChunk gs)
                   >=? numberOfChunks (new_ReadStream a gs))
             /\ (Chunk.chunkNumber (GridStore.currentChunk gs)
                 < numberOfChunks (new_ReadStream a gs) ->
                 steady (answer file
                           (apply_readChunk K_read VNull (Some d) w0)))).
  { intros d w0 C D P O Hc Hl Hn Hr Hs ->.
    destruct (unit_delivered file (Chunk.unread (GridStore.currentChunk gs))
                w0 C P)
      as (Ea & Eo & Ec & Ep & En & EN & Er & Ed & El & Es).
    rewrite Ea.
    split; [rewrite Eo, O, Hc, Hn, (shutdown_trace_same VUndefined _ _ Hr);
            reflexivity|].
    split; [rewrite En; exact Hc|].
    split; [rewrite EN; exact Hn|].
    split; [rewrite Er; exact Hr|].
    split; [exact Ep|].
    split; [rewrite Ec, Hc, Hn; reflexivity|].
    intros Hlt. unfold steady, active.
    rewrite Ed, Ec, Ep, El, En, Es, EN, Hl, Hc, Hn.
    repeat split; try assumption; try reflexivity.
    rewrite Z.geb_leb. apply Z.leb_gt. exact Hlt. }
  destruct (Z_lt_le_dec 0 (seekStartPosition (new_ReadStream a gs))) as [Hp | Hn].
  - assert (Hb : 0 < seekStartPosition (rs (start a gs))
                   < Chunk.length
                       (GridStore.currentChunk (gstore (rs (start a gs)))))
      by (simpl in *; lia).
    rewrite (produce_with_seek K_read VNull (start a gs) eq_refl Hb)
      by (simpl in *; lia).
    apply G; try reflexivity; try (simpl; lia).
    apply (trailing_unread (GridStore.currentChunk gs)
             (seekStartPosition (new_ReadStream a gs)) HP).
    simpl in *. lia.
  - assert (Hb : seekStartPosition (rs (start a gs)) <= 0
                 \/ Chunk.length
                      (GridStore.currentChunk (gstore (rs (start a gs))))
                    <= seekStartPosition (rs (start a gs)))
      by (left; exact Hn).
    rewrite (produce_whole K_read VNull (start a gs) eq_refl Hb)
      by (simpl in *; lia).
    apply G; try reflexivity; try exact Hn.
Qed.

Lemma pulls_steady (file : Z -> Chunk.t) (n : nat) (w : World) :
  (forall i : Z, Chunk.internalPosition (file i) = 0%nat) ->
  steady w ->
  currentChunkNumber (rs w) + Z.of_nat n <= numberOfChunks (rs w) ->
  out (pulls file n w)
  = out w ++ expected file (currentChunkNumber (rs w)) n
      ++ (if currentChunkNumber (rs w) + Z.of_nat n >=? numberOfChunks (rs w)
          then shutdown_trace VUndefined (rs w) else [])
  /\ _closed (rs (pulls file n w))
     = (currentChunkNumber (rs w) + Z.of_nat n >=? numberOfChunks (rs w))
  /\ pendingNthChunk (pulls file n w) = []
  /\ currentChunkNumber (rs (pulls file n w))
     = currentChunkNumber (rs w) + Z.of_nat n.
Proof.
  intros Fr. revert w. induction n as [| n IH]; intros w St0 B.
  - destruct St0 as ([D C] & P & L & Sk & Lt). simpl.
    replace (_ >=? _) with false
      by (symmetry; rewrite Z.geb_leb; apply Z.leb_gt; lia).
    rewrite !app_nil_r. repeat split; try assumption. lia.
  - destruct (pull_steady file w St0 (Fr _))
      as (Eo & Ec & EN & Er & Ep & Ecl & St).
    pose proof St0 as ([D C] & P & L & Sk & Lt).
    change (pulls file (S n) w) with (pulls file n (pull file w)).
    destruct (Z_lt_le_dec (currentChunkNumber (rs w) + 1) (numberOfChunks (rs w)))
      as [Hlt | Hge].
    + destruct (IH (pull file w) (St Hlt)) as (Io & Ic & Ip & In).
      { rewrite Ec, EN. lia. }
      rewrite Io, Ic, Ip, In, Eo, Ec, EN.
      replace (currentChunkNumber (rs w) + 1 >=? numberOfChunks (rs w))
        with false by (symmetry; rewrite Z.geb_leb; apply Z.leb_gt; lia).
      rewrite (shutdown_trace_same VUndefined _ _ Er).
      replace (currentChunkNumber (rs w) + 1 + Z.of_nat n)
        with (currentChunkNumber (rs w) + Z.of_nat (S n)) by lia.
      cbn [expected app]. rewrite <- !app_assoc. cbn [app].
      repeat split.
    + assert (n = 0%nat) by lia. subst n. cbn [pulls expected].
      rewrite Eo, Ecl, Ep, Ec.
      replace (currentChunkNumber (rs w) + Z.of_nat 1) with
        (currentChunkNumber (rs w) + 1) by lia.
      cbn [app]. repeat split.
Qed.

(** X9.  A stream on a handle with a chunk size other than zero, whose
    loaded chunk has a number [c0] other than -1 and not above
    [numberOfChunks] and keeps its cursor on the seek offset, the offset
    being zero or below the chunk's length, pulled [k + 1] times with every
    fetch answered at once by the chunk asked for, read from its start.
    The first pull fetches nothing and pushes the unread bytes of the
    loaded chunk; each further pull asks for the next chunk number and
    pushes all of that chunk's bytes.  The session ends, with the end
    signal and then the close signal or the call of [gstore.close], exactly
    in the pull that makes the current chunk number reach [numberOfChunks],
    that is after chunk number [numberOfChunks] itself has been fetched and
    pushed; nothing is outstanding afterwards. *)
Theorem answered_pulls_deliver_the_chunks_in_order :
  forall (file : Z -> Chunk.t) (a : value) (gs : GridStore.t) (k : nat),
    GridStore.chunkSize gs <> 0 ->
    Chunk.chunkNumber (GridStore.currentChunk gs) <> -1 ->
    Z.of_nat (Chunk.internalPosition (GridStore.currentChunk gs))
    = seekStartPosition (new_ReadStream a gs) ->
    seekStartPosition (new_ReadStream a gs) = 0
    \/ seekStartPosition (new_ReadStream a gs)
       < Chunk.length (GridStore.currentChunk gs) ->
    (forall i : Z, Chunk.internalPosition (file i) = 0%nat) ->
    Chunk.chunkNumber (GridStore.currentChunk gs) + Z.of_nat k
      <= numberOfChunks (new_ReadStream a gs) ->
    out (pulls file (S k) (start a gs))
    = Push (Chunk.unread (GridStore.currentChunk gs))
        :: expected file (Chunk.chunkNumber (GridStore.currentChunk gs)) k
        ++ (if Chunk.chunkNumber (GridStore.currentChunk gs) + Z.of_nat k
               >=? numberOfChunks (new_ReadStream a gs)
            then shutdown_trace VUndefined (new_ReadStream a gs) else [])
    /\ units (out (pulls file (S k) (start a gs)))
       = Chunk.unread (GridStore.currentChunk gs)
           :: map (fun i => Chunk.data (file i))
                (count_up (Chunk.chunkNumber (GridStore.currentChunk gs)) k)
    /\ fetch_numbers (out (pulls file (S k) (start a gs)))
       = count_up (Chunk.chunkNumber (GridStore.currentChunk gs)) k
    /\ _closed (rs (pulls file (S k) (start a gs)))
       = (Chunk.chunkNumber (GridStore.currentChunk gs) + Z.of_nat k
          >=? numberOfChunks (new_ReadStream a gs))
    /\ pendingNthChunk (pulls file (S k) (start a gs)) = [].
Proof.
  intros file a gs k _ H1 HP HS Fr HN.
  assert (O : out (pulls file (S k) (start a gs))
              = Push (Chunk.unread (GridStore.currentChunk gs))
                  :: expected file
                       (Chunk.chunkNumber (GridStore.currentChunk gs)) k
                  ++ (if Chunk.chunkNumber (GridStore.currentChunk gs)
                         + Z.of_nat k
                         >=? numberOfChunks (new_ReadStream a gs)
                      then shutdown_trace VUndefined (new_ReadStream a gs)
                      else [])
              /\ _closed (rs (pulls file (S k) (start a gs)))
                 = (Chunk.chunkNumber (GridStore.currentChunk gs) + Z.of_nat k
                    >=? numberOfChunks (new_ReadStream a gs))
              /\ pendingNthChunk (pulls file (S k) (start a gs)) = []).
  { destruct (first_pull file a gs H1 ltac:(lia) HP HS)
      as (Eo & Ec & EN & Er & Ep & Ecl & St).
    change (pulls file (S k) (start a gs))
      with (pulls file k (pull file (start a gs))).
    destruct (Z_lt_le_dec (Chunk.chunkNumber (GridStore.currentChunk gs))
                (numberOfChunks (new_ReadStream a gs))) as [Hlt | Hge].
    - destruct (pulls_steady file k _ Fr (St Hlt)) as (Io & Ic & Ip & _).
      { rewrite Ec, EN. exact HN. }
      rewrite Io, Ic, Ip, Eo, Ec, EN.
      replace (Chunk.chunkNumber (GridStore.currentChunk gs)
               >=? numberOfChunks (new_ReadStream a gs))
        with false by (symmetry; rewrite Z.geb_leb; apply Z.leb_gt; lia).
      rewrite (shutdown_trace_same VUndefined _ _ Er).
      repeat split.
    - assert (k = 0%nat) by lia. subst k. cbn [pulls expected app].
      rewrite Eo, Ecl, Ep. rewrite Z.add_0_r. repeat split. }
  destruct O as (O & C & P).
  split; [exact O|]. split; [| split; [| split; assumption]].
  - rewrite O. cbn [units]. rewrite units_app, units_expected.
    rewrite (map_ext (fun i => Chunk.unread (file i))
               (fun i => Chunk.data (file i)))
      by (intros i; apply unread_at_start, Fr).
    destruct (_ >=? _); [rewrite units_shutdown_trace|]; rewrite app_nil_r;
      reflexivity.
  - rewrite O. cbn [fetch_numbers].
    rewrite fetch_numbers_app, fetch_numbers_expected.
    destruct (_ >=? _); [rewrite fetch_numbers_shutdown_trace|];
      rewrite app_nil_r; reflexivity.
Qed.

Lemma answered_pulls_deliver_the_chunks_in_order_witness :
  out (pulls file10_chunks 3 (start (VBool false) file10_at5))
  = [Push [x05; x06; x07];
     NthChunk 2; Push [x08; x09];
     NthChunk 3; Push [];
     PushNull; EmitClose VUndefined].
Proof.
  destruct (answered_pulls_deliver_the_chunks_in_order file10_chunks
              (VBool false) file10_at5 2)
    as (H & _).
  - simpl. intros E. discriminate E.
  - simpl. intros E. discriminate E.
  - reflexivity.
  - right. reflexivity.
  - intros i. unfold file10_chunks.
    destruct (i =? 0); [reflexivity|].
    destruct (i =? 1); [reflexivity|].
    destruct (i =? 2); reflexivity.
  - simpl. intros E. discriminate E.
  - rewrite H. reflexivity.
Defined.

(** ** A handle past the end of the file *)

Lemma step_past_the_end (w : World) (e : Event) :
  numberOfChunks (rs w) < currentChunkNumber (rs w) ->
  pendingNthChunk w = [] ->
  pendingClose w = [] ->
  is_destroy e = false ->
  step w e = w.
Proof.
  intros H P Q N. destruct e as [| err | err chunk | err doc]; simpl.
  - unfold _read. destruct (_ || _); [reflexivity|].
    replace (_ >? _) with true by (symmetry; apply Z.gtb_lt; exact H).
    reflexivity.
  - discriminate N.
  - rewrite P. reflexivity.
  - rewrite Q. reflexivity.
Qed.

(** X10.  A stream constructed on a handle with a chunk size other than
    zero whose loaded chunk number exceeds [numberOfChunks] ignores every
    pull: as long as [destroy] is not called it pushes nothing, fetches
    nothing and never signals the end or the close. *)
Theorem pulls_past_the_end_are_ignored :
  forall (a : value) (gs : GridStore.t) (evs : list Event),
    GridStore.chunkSize gs <> 0 ->
    numberOfChunks (new_ReadStream a gs)
      < Chunk.chunkNumber (GridStore.currentChunk gs) ->
    forallb (fun e => negb (is_destroy e)) evs = true ->
    run (start a gs) evs = start a gs.
Proof.
  intros a gs evs _ H. induction evs as [| e evs IH]; intros F.
  - reflexivity.
  - simpl in F. apply andb_prop in F. destruct F as [Fe Fs].
    simpl. rewrite step_past_the_end; try reflexivity.
    + apply IH. exact Fs.
    + exact H.
    + apply negb_true_iff. exact Fe.
Qed.

Lemma pulls_past_the_end_are_ignored_witness :
  out (run (start VNull file10_past) [EvRead; EvRead; EvRead]) = [].
Proof.
  rewrite (pulls_past_the_end_are_ignored VNull file10_past
             [EvRead; EvRead; EvRead]);
    [reflexivity | intros E; discriminate E | reflexivity | reflexivity].
Defined.
